(** * coca: in-place updatable terminal lines

    A shallow embedding of [src/coca.py] (classes [LinesSession], [Line]
    and [_LineEntry]) together with the properties of its row
    bookkeeping.

    Conventions of the embedding.
    - Python integers are [Z]; strings are [string], one element for
      one character, so that [len] is [String.length].
    - A method is a function in a state-and-exception monad that also
      collects what the method sends to [print]: an exception keeps the
      state reached when it is raised, as in Python.
    - [len(text) / width] is Python's true division followed by
      [math.ceil]; the quotient is taken as an exact rational (the float
      quotient is exact enough for every length below 2^53).
    - The printing lock serialises the methods; one method call is one
      run of the monad. *)

From Stdlib Require Import ZArith QArith Qround Ascii String List Lia.
From stdpp Require Import base list gmap strings.

Local Open Scope Z_scope.

(** ** Data model *)

(** The exceptions the code can raise. *)
Inductive exn : Type :=
| ZeroDivisionError            (* len(text) / 0 *)
| KeyError_id (key : nat)      (* self.lines_index[id(line_obj)] *)
| KeyError (name : string)     (* str.format: no value for a named field *)
| IndexError                   (* str.format: a positional field *)
| ValueError                   (* str.format: malformed template *)
| TypeError (name : string)    (* Line(self, template, kwargs): the keyword
                                  argument [name] is given twice *)
| NoSuchObject (key : nat).    (* the model's handle denotes no Line object;
                                  no Python run gets here *)

(** What one call of [print] writes. *)
Inductive term_out : Type :=
| CursorCol0                   (* "\033[0G" *)
| CursorDown (n : Z)           (* "\033[{n}E" *)
| CursorUp (n : Z)             (* "\033[{n}F" *)
| EraseLine                    (* "\033[2K" *)
| Text (s : string).           (* print(text): the text and a newline *)

(** A call of [print], with the value [self.current_line] has when the
    call is made: the row the session believes the cursor is on. *)
Definition event : Type := Z * term_out.

(** [_LineEntry]. [line_obj] is [id(line_obj)]; [next_line_entry] is the
    next element of the list the entry is stored in (see
    [lines_index]). *)
Record _LineEntry : Type := mkEntry {
  line_obj : nat;
  text : string;
  line_number : Z;
  nb_physical_lines : Z
}.

(** [LinesSession]. The linked chain of entries (first entry, its
    [next_line_entry], ..., [last_line_entry]) is the list
    [lines_index], in creation order, and the dictionary [lines_index]
    is read off the same list: the entry of key [k] is the last entry of
    the chain whose [line_obj] is [k], since [line] is the only writer of
    the dictionary and stores every entry under the id of its own
    [line_obj]. An entry is thus one shared object, reached from the
    dictionary and from the chain alike. *)
Record LinesSession : Type := mkSession {
  lines_counter : Z;
  lines_index : list _LineEntry;
  current_line : Z;
  available_width : Z
}.

Definition set_lines_counter (v : Z) (s : LinesSession) : LinesSession :=
  mkSession v (lines_index s) (current_line s) (available_width s).
Definition set_lines_index (v : list _LineEntry) (s : LinesSession) : LinesSession :=
  mkSession (lines_counter s) v (current_line s) (available_width s).
Definition set_current_line (v : Z) (s : LinesSession) : LinesSession :=
  mkSession (lines_counter s) (lines_index s) v (available_width s).

Definition set_text (v : string) (e : _LineEntry) : _LineEntry :=
  mkEntry (line_obj e) v (line_number e) (nb_physical_lines e).
Definition set_line_number (v : Z) (e : _LineEntry) : _LineEntry :=
  mkEntry (line_obj e) (text e) v (nb_physical_lines e).
Definition set_nb_physical_lines (v : Z) (e : _LineEntry) : _LineEntry :=
  mkEntry (line_obj e) (text e) (line_number e) v.

(** ** The monad: state, exceptions, printed output *)

Definition M (St A : Type) : Type := St → (exn + A) * St * list event.

Definition ret {St A} (a : A) : M St A := λ s, (inr a, s, []).
Definition raise {St A} (e : exn) : M St A := λ s, (inl e, s, []).
Definition bind {St A B} (m : M St A) (k : A → M St B) : M St B :=
  λ s, match m s with
       | (inl e, s1, o1) => (inl e, s1, o1)
       | (inr a, s1, o1) =>
           match k a s1 with (r, s2, o2) => (r, s2, o1 ++ o2) end
       end.
Definition gets {St A} (f : St → A) : M St A := λ s, (inr (f s), s, []).
Definition modify {St} (f : St → St) : M St unit := λ s, (inr tt, f s, []).
Definition of_result {St A} (r : exn + A) : M St A := λ s, (r, s, []).

Notation "'let*' x ':=' m 'in' k" := (bind m (λ x, k))
  (at level 10, x name, m at level 100, k at level 200, only parsing).
Notation "m ';;' k" := (bind m (λ _, k))
  (at level 100, k at level 200, right associativity, only parsing).

(** [for x in l: body(x)]. *)
Fixpoint for_each {St A} (l : list A) (body : A → M St unit) : M St unit :=
  match l with
  | [] => ret tt
  | x :: r => body x ;; for_each r body
  end.

(** [range(a, b)], evaluated once when the loop starts. *)
Definition range (a b : Z) : list Z := seqZ a (b - a).

Definition when {St} (b : bool) (m : M St unit) : M St unit :=
  if b then m else ret tt.

(** [print(...)]: the output is recorded with the current cursor row. *)
Definition print (o : term_out) : M LinesSession unit :=
  λ s, (inr tt, s, [(current_line s, o)]).

(** ** LinesSession *)

(** [__init__]; [width] is what [shutil.get_terminal_size()[0]]
    returned. *)
Definition LinesSession_init (width : Z) : LinesSession :=
  mkSession 1 [] 0 width.

Definition len (t : string) : Z := Z.of_nat (String.length t).

(** [max(1, math.ceil(length / width))]. *)
Definition nb_physical_lines_of (width length : Z) : exn + Z :=
  if width =? 0 then inl ZeroDivisionError
  else inr (Z.max 1 (Qceiling (inject_Z length / inject_Z width))).

Definition _compute_nb_physical_lines (t : string) : M LinesSession Z :=
  let* width := gets available_width in
  of_result (nb_physical_lines_of width (len t)).

Definition _set_cursor_to_line_number (n : Z) : M LinesSession unit :=
  let* cur := gets current_line in
  let diff := n - cur in
  (if diff =? 0 then print CursorCol0
   else print (if 0 <? diff then CursorDown (Z.abs diff)
               else CursorUp (Z.abs diff))) ;;
  modify (set_current_line n).

Definition _print_at_line (t : string) (n : Z) : M LinesSession unit :=
  let* size := _compute_nb_physical_lines t in
  for_each (range n (n + size)) (λ position,
    _set_cursor_to_line_number position ;;
    print EraseLine) ;;
  _set_cursor_to_line_number n ;;
  print (Text t) ;;
  modify (set_current_line (n + size)) ;;
  let* counter := gets lines_counter in
  let* cur := gets current_line in
  modify (set_lines_counter (Z.max counter (cur + 1))).

Definition _extend (size : Z) : M LinesSession unit :=
  let* counter := gets lines_counter in
  for_each (range (counter - 1) (counter + size)) (λ n,
    _print_at_line "" n).

Definition _truncate : M LinesSession unit :=
  let* original_cursor_position := gets current_line in
  let* counter := gets lines_counter in
  let size_truncation := counter - original_cursor_position - 1 in
  for_each (range original_cursor_position (counter - 1)) (λ n,
    _print_at_line "" n) ;;
  _set_cursor_to_line_number original_cursor_position ;;
  let* counter' := gets lines_counter in
  modify (set_lines_counter (counter' - size_truncation)).

Definition end_ : M LinesSession unit :=
  let* counter := gets lines_counter in
  _set_cursor_to_line_number (counter - 1).

(** [self.lines_index[key]]: the entry stored under [key], the last one
    registered with this key, and its position in the chain. *)
Fixpoint lookup_entry (key : nat) (l : list _LineEntry)
    : option (nat * _LineEntry) :=
  match l with
  | [] => None
  | e :: r =>
      match lookup_entry key r with
      | Some (i, e') => Some (S i, e')
      | None => if decide (line_obj e = key) then Some (0%nat, e) else None
      end
  end.

(** The [while current_line_entry is not None] loop of [print_line]:
    [chain] is what remains of the chain from [current_line_entry] on,
    [pos] the position of [current_line_entry] in [lines_index]. *)
Fixpoint shift_following (chain : list _LineEntry) (pos : nat)
    (current_line_number : Z) : M LinesSession unit :=
  match chain with
  | [] => ret tt
  | current_line_entry :: rest =>
      modify (λ s, set_lines_index
        (alter (set_line_number current_line_number) pos (lines_index s)) s) ;;
      _print_at_line (text current_line_entry) current_line_number ;;
      shift_following rest (S pos)
        (current_line_number + nb_physical_lines current_line_entry)
  end.

(** What [LinesSession.print_line(line_obj)] does to the session; [key]
    is [id(line_obj)] and [rendered] is what [line_obj.text()] evaluates
    to. *)
Definition print_line_in (key : nat) (rendered : exn + string)
    : M LinesSession unit :=
  let* index := gets lines_index in
  match lookup_entry key index with
  | None => raise (KeyError_id key)
  | Some (pos, line_entry) =>
      let* t := of_result rendered in
      modify (λ s, set_lines_index
        (alter (set_text t) pos (lines_index s)) s) ;;
      let old_nb_physical_lines := nb_physical_lines line_entry in
      let* new_nb_physical_lines := _compute_nb_physical_lines t in
      when (old_nb_physical_lines <? new_nb_physical_lines)
        (_extend (new_nb_physical_lines - old_nb_physical_lines)) ;;
      _print_at_line t (line_number line_entry) ;;
      when (negb (old_nb_physical_lines =? new_nb_physical_lines))
        (modify (λ s, set_lines_index
           (alter (set_nb_physical_lines new_nb_physical_lines) pos
              (lines_index s)) s) ;;
         shift_following (drop (S pos) index) (S pos)
           (line_number line_entry + new_nb_physical_lines)) ;;
      when (new_nb_physical_lines <? old_nb_physical_lines)
        _truncate
  end.

(** What [LinesSession.line] does once the Line object is built; [key]
    is [id(line_obj)] and [rendered] is what [line_obj.text()] evaluates
    to. *)
Definition line_in (key : nat) (rendered : exn + string)
    : M LinesSession unit :=
  let* t := of_result rendered in
  let* nb := _compute_nb_physical_lines t in
  let* counter := gets lines_counter in
  let line_entry := mkEntry key t (counter - 1) nb in
  modify (λ s, set_lines_index (lines_index s ++ [line_entry]) s) ;;
  _extend (nb - 1) ;;
  _print_at_line t (line_number line_entry).

(** ** Line handles and the operations of the public interface *)

Section Coca.

(** The values passed as keyword arguments, and [str.format] applied to
    them, the text-template primitive: both are outside this program. *)
Context {value : Type}.
Variable str_format : string → gmap string value → exn + string.

(** [Line]: the template and the keyword arguments. The [session]
    back-reference is the one session of the model. *)
Record Line : Type := mkLine {
  template : string;
  kwargs : gmap string value
}.

(** The Line objects alive, by id, and the session. *)
Record world : Type := mkWorld {
  handles : list Line;
  session : LinesSession
}.

Definition set_session (s : LinesSession) (w : world) : world :=
  mkWorld (handles w) s.
Definition set_handles (h : list Line) (w : world) : world :=
  mkWorld h (session w).

(** Runs a method of the session in the world. *)
Definition in_session {A} (m : M LinesSession A) : M world A :=
  λ w, match m (session w) with (r, s, o) => (r, set_session s w, o) end.

(** [Line.text]. *)
Definition Line_text (l : Line) : exn + string :=
  if decide (kwargs l = ∅) then inr (template l)
  else str_format (template l) (kwargs l).

(** [LinesSession.print_line(line_obj)], given the id of [line_obj]. *)
Definition print_line (key : nat) : M world unit :=
  let* objs := gets handles in
  match objs !! key with
  | None => raise (NoSuchObject key)
  | Some line_obj => in_session (print_line_in key (Line_text line_obj))
  end.

(** [Line(session, template, kwargs)], as [line] calls it: the session
    is passed by position, so that a keyword argument named [session]
    gives the parameter [session] of [Line.__init__] a second value,
    which raises [TypeError]; no object is made then. *)
Definition Line_new (tpl : string) (kw : gmap string value) : exn + Line :=
  match kw !! "session" with
  | Some _ => inl (TypeError "session")
  | None => inr (mkLine tpl kw)
  end.

(** [LinesSession.line(template, kwargs)]; the result is the id of the
    new Line object. *)
Definition line (tpl : string) (kw : gmap string value) : M world nat :=
  let* line_obj := of_result (Line_new tpl kw) in
  let* objs := gets handles in
  let key := length objs in
  modify (set_handles (objs ++ [line_obj])) ;;
  in_session (line_in key (Line_text line_obj)) ;;
  ret key.

(** [Line.update(template, kwargs)]; [tpl] is [None] when no template
    is given. *)
Definition Line_update (key : nat) (tpl : option string)
    (kw : gmap string value) : M world unit :=
  let* objs := gets handles in
  match objs !! key with
  | None => raise (NoSuchObject key)
  | Some self =>
      let self1 :=
        match tpl with
        | Some t => mkLine t ∅
        | None => self
        end in
      let self2 := mkLine (template self1) (kw ∪ kwargs self1) in
      modify (set_handles (<[key := self2]> objs)) ;;
      print_line key
  end.

(** One call of the public interface, whether it returns or raises. *)
Inductive step : world → world → Prop :=
| step_line tpl kw w :
    step w (line tpl kw w).1.2
| step_update key tpl kw w :
    step w (Line_update key tpl kw w).1.2
| step_end w :
    step w (in_session end_ w).1.2.

(** The worlds a program reaches from a new session of the given
    width. *)
Definition reachable (width : Z) (w : world) : Prop :=
  rtc step (mkWorld [] (LinesSession_init width)) w.

End Coca.

Arguments Line : clear implicits.
Arguments world : clear implicits.

(** ** A template primitive to run the code with

    Named fields only: [{name}] is replaced by the value of [name]. It
    stands for [str.format] in the runs below; the theorems hold for any
    such primitive. *)
Fixpoint named_format_from (field : option string) (t : string)
    (kw : gmap string string) : exn + string :=
  match t with
  | EmptyString =>
      match field with
      | None => inr EmptyString
      | Some _ => inl ValueError
      end
  | String c r =>
      match field with
      | None =>
          if Ascii.eqb c "{"%char then named_format_from (Some EmptyString) r kw
          else match named_format_from None r kw with
               | inr out => inr (String c out)
               | inl e => inl e
               end
      | Some name =>
          if Ascii.eqb c "}"%char then
            match kw !! name with
            | None => inl (KeyError name)
            | Some v =>
                match named_format_from None r kw with
                | inr out => inr (v ++ out)%string
                | inl e => inl e
                end
            end
          else named_format_from (Some (name ++ String c EmptyString)%string) r kw
      end
  end.

Definition named_format : string → gmap string string → exn + string :=
  named_format_from None.

(** ['x' * n]. *)
Fixpoint repeat_char (c : Ascii.ascii) (n : nat) : string :=
  match n with
  | O => EmptyString
  | S k => String c (repeat_char c k)
  end.

(** The world of a program that has just built its session. *)
Definition new_world (width : Z) : world string :=
  mkWorld [] (LinesSession_init width).

(** The state a sequence of calls ends in, and all it printed; an
    exception ends the sequence. *)
Definition run_all {St} (ms : list (M St unit)) : M St unit :=
  for_each ms (λ m, m).
Definition call {St A} (m : M St A) : M St unit := m ;; ret tt.

(** ** What a run prints *)

Definition is_ink (o : term_out) : bool :=
  match o with
  | EraseLine | Text _ => true
  | _ => false
  end.

(** The output without the cursor moves: rows erased and texts written,
    in the order they are printed. *)
Definition ink (o : list event) : list event :=
  List.filter (λ ev, is_ink ev.2) o.

(** The rows on which [EraseLine] is printed. *)
Definition erased_rows (o : list event) : list Z :=
  map fst (List.filter (λ ev, match ev.2 with EraseLine => true | _ => false end) o).

(** The texts written, each with the row it is written at. *)
Definition printed_texts (o : list event) : list (Z * string) :=
  flat_map (λ ev, match ev.2 with Text t => [(ev.1, t)] | _ => [] end) o.

Definition erase_rows (rows : list Z) : list event :=
  map (λ r, (r, EraseLine)) rows.

(** What printing an empty line at each of [rows] leaves. *)
Definition blank_rows (rows : list Z) : list event :=
  flat_map (λ r, [(r, EraseLine); (r, Text "")]) rows.

(** The output before the first print of [t] at [row]. *)
Fixpoint before_text (row : Z) (t : string) (o : list event) : list event :=
  match o with
  | [] => []
  | (r, Text t') as ev :: rest =>
      if (r =? row) && String.eqb t' t then []
      else ev :: before_text row t rest
  | ev :: rest => ev :: before_text row t rest
  end.

Definition world_after {St A} (m : M St A) (w : St) : St := (m w).1.2.
Definition output_of {St A} (m : M St A) (w : St) : list event := (m w).2.

(** The net move of the cursor the escape codes of an output ask for,
    down counted positive: [_sum_jumps] of the tests, for the codes
    alone. *)
Definition sum_jumps (o : list event) : Z :=
  foldr (λ ev acc,
           match ev.2 with
           | CursorDown n => n + acc
           | CursorUp n => - n + acc
           | _ => acc
           end) 0 o.

Definition rows_and_heights (s : LinesSession) : list (Z * Z) :=
  map (λ e, (line_number e, nb_physical_lines e)) (lines_index s).

(** ** Rows of the entries *)

(** The stored height of an entry is the height of its stored text. *)
Definition entry_ok (width : Z) (e : _LineEntry) : Prop :=
  nb_physical_lines_of width (len (text e)) = inr (nb_physical_lines e).

(** The row after the last row of an entry. *)
Definition entry_end (e : _LineEntry) : Z :=
  line_number e + nb_physical_lines e.

Definition total_height (l : list _LineEntry) : Z :=
  foldr (λ e acc, nb_physical_lines e + acc) 0 l.

(** The entries of [l] lie one after the other from [row] on. *)
Fixpoint contiguous_from (row : Z) (l : list _LineEntry) : Prop :=
  match l with
  | [] => True
  | e :: r => line_number e = row ∧ contiguous_from (entry_end e) r
  end.

(** [entries[i+1].row == entries[i].row + entries[i].height]. *)
Definition contiguous (l : list _LineEntry) : Prop :=
  ∀ (i : nat) e1 e2,
    l !! i = Some e1 → l !! S i = Some e2 →
    line_number e2 = line_number e1 + nb_physical_lines e1.

(** The row after the last entry; [fallback] when there is none. *)
Definition chain_end (fallback : Z) (l : list _LineEntry) : Z :=
  match last l with
  | Some e => entry_end e
  | None => fallback
  end.

(** The entries of [l] put one after the other from [row] on. *)
Fixpoint renumber (row : Z) (l : list _LineEntry) : list _LineEntry :=
  match l with
  | [] => []
  | e :: r =>
      set_line_number row e :: renumber (row + nb_physical_lines e) r
  end.

Definition shift_row (delta : Z) (e : _LineEntry) : _LineEntry :=
  set_line_number (line_number e + delta) e.

(** What printing an entry leaves: its rows erased, then its text. *)
Definition entry_ink (e : _LineEntry) : list event :=
  erase_rows (range (line_number e) (entry_end e))
  ++ [(line_number e, Text (text e))].

(** What every session reached through [line] and [update] satisfies,
    on a terminal whose width is not 0: the height of an entry is the
    height of its text, the cursor is above the last row, and so are all
    the rows of the entries. *)
Definition session_ok (s : LinesSession) : Prop :=
  Forall (entry_ok (available_width s)) (lines_index s) ∧
  current_line s < lines_counter s ∧
  chain_end (lines_counter s - 1) (lines_index s) < lines_counter s.

(** ** Properties of all the runs of a method *)

(** [Q] relates the state a run of [m] starts in, what it prints and the
    state it ends in, whether the run returns or raises. *)
Definition holds {St A} (Q : St → list event → St → Prop)
    (m : M St A) (s : St) : Prop :=
  Q s (output_of m s) (world_after m s).

(** The rows the texts of an output take, for a terminal of the given
    width. *)
Definition text_rows (width : Z) (o : list event) : Z :=
  foldr (λ rt acc,
           match nb_physical_lines_of width (len rt.2) with
           | inr h => h + acc
           | inl _ => acc
           end) 0 (printed_texts o).

(** The escape codes and the texts of the output move the cursor of the
    terminal as far as [current_line] moves, and the width is kept. *)
Definition tracked (s : LinesSession) (o : list event) (s' : LinesSession)
    : Prop :=
  sum_jumps o + text_rows (available_width s) o
    = current_line s' - current_line s ∧
  available_width s' = available_width s.

(** A property of the session, as a property of the world it is in. *)
Definition in_world {value : Type}
    (Q : LinesSession → list event → LinesSession → Prop)
    (w : world value) (o : list event) (w' : world value) : Prop :=
  Q (session w) o (session w').

(** The Line object [update] leaves behind: the template replaced and
    the old keyword arguments dropped if a template is given, then the
    keyword arguments of the call merged in. *)
Definition updated_handle {value : Type} (tpl : option string)
    (kw : gmap string value) (l : Line value) : Line value :=
  match tpl with
  | Some t => mkLine t (kw ∪ ∅)
  | None => mkLine (template l) (kw ∪ kwargs l)
  end.

(** The ids of the Line objects that have an entry, in the order of the
    chain. *)
Definition keys (s : LinesSession) : list nat :=
  map line_obj (lines_index s).

(** The entries are the same in number and order and stand for the same
    Line objects, and the width is kept. *)
Definition keys_kept (s : LinesSession) (o : list event) (s' : LinesSession)
    : Prop :=
  keys s' = keys s ∧ available_width s' = available_width s.

(** The entries of [l] lie in increasing rows from [row] on, none over
    another. *)
Fixpoint ordered_from (row : Z) (l : list _LineEntry) : Prop :=
  match l with
  | [] => True
  | e :: r => row <= line_number e ∧ ordered_from (entry_end e) r
  end.

(** [entries[i+1].row >= entries[i].row + entries[i].height]: no entry
    lies over the next one. *)
Definition no_overlap (l : list _LineEntry) : Prop :=
  ∀ (i : nat) e1 e2,
    l !! i = Some e1 → l !! S i = Some e2 →
    line_number e1 + nb_physical_lines e1 <= line_number e2.

(** [lines_counter] is one above the rows of the entries: the last row
    is the one row after the last entry. *)
Definition tight (s : LinesSession) : Prop :=
  chain_end (lines_counter s - 1) (lines_index s) = lines_counter s - 1.

(** A session on a terminal of width 80 with two lines, "Hello" and
    "World", and the Line object of the first one given a text of 200
    characters, as [update] does before it calls [print_line]. *)
Definition hello_world_growing : world string :=
  mkWorld [mkLine (repeat_char "x" 200) ∅; mkLine "World" ∅]
    (mkSession 3 [mkEntry 0 "Hello" 0 1; mkEntry 1 "World" 1 1] 2 80).

(** The same two lines once the first one has three rows, and its Line
    object given the text "Hello" again. *)
Definition hello_world_shrinking : world string :=
  mkWorld [mkLine "Hello" ∅; mkLine "World" ∅]
    (mkSession 5
       [mkEntry 0 (repeat_char "x" 200) 0 3; mkEntry 1 "World" 3 1] 4 80).

(** The height of a text on a terminal of a width other than 0. *)
Definition height (width : Z) (t : string) : Z :=
  match nb_physical_lines_of width (len t) with
  | inr h => h
  | inl _ => 0
  end.

(** The entries of the texts [ts], put one after the other from [row]
    on, for Line objects of ids [key], [key + 1], ... *)
Fixpoint stack_entries (width : Z) (key : nat) (row : Z) (ts : list string)
    : list _LineEntry :=
  match ts with
  | [] => []
  | t :: r =>
      mkEntry key t row (height width t)
      :: stack_entries width (S key) (row + height width t) r
  end.

(** ** The first row of the session *)

(** No row of the session is above row 0, the row the program starts
    on. *)
Definition rows_nonneg (s : LinesSession) : Prop :=
  0 <= current_line s ∧ 1 <= lines_counter s ∧
  Forall (λ e, 0 <= line_number e ∧ 0 <= nb_physical_lines e)
    (lines_index s).

(** The print is made with the cursor on row 0 or below, and if it moves
    the cursor up, it does not move it above row 0. *)
Definition event_in_canvas (ev : event) : Prop :=
  0 <= ev.1 ∧
  match ev.2 with
  | CursorUp n => n <= ev.1
  | _ => True
  end.

(** A run from a session with no row above row 0 prints nothing above
    row 0 and ends in such a session. *)
Definition stays_below_top (s : LinesSession) (o : list event)
    (s' : LinesSession) : Prop :=
  rows_nonneg s → rows_nonneg s' ∧ Forall event_in_canvas o.

(** [lines_counter] does not decrease and the entries are as they
    were. *)
Definition counter_grows (s : LinesSession) (o : list event)
    (s' : LinesSession) : Prop :=
  lines_counter s <= lines_counter s' ∧ lines_index s' = lines_index s.

(** * Properties *)

(** ** The height of a text *)

Lemma Qceiling_div (a b : Z) :
  Qceiling (inject_Z a / inject_Z b) = - (- a / b).
Proof.
  unfold Qceiling. rewrite Zdiv_Qdiv. f_equal.
  apply Qfloor_comp. rewrite inject_Z_opp. unfold Qdiv. ring.
Qed.

Lemma ceiling_quotient_bounds (a b : Z) :
  0 < b → (- (- a / b) - 1) * b < a <= - (- a / b) * b.
Proof.
  intros Hb.
  pose proof (Z.div_mod (- a) b ltac:(lia)) as Hdm.
  pose proof (Z.mod_pos_bound (- a) b Hb) as Hm.
  nia.
Qed.

Lemma nb_physical_lines_of_nonzero (width length : Z) :
  width ≠ 0 →
  nb_physical_lines_of width length = inr (Z.max 1 (- (- length / width))).
Proof.
  intros Hw. unfold nb_physical_lines_of.
  destruct (Z.eqb_spec width 0) as [|_]; [done|].
  by rewrite Qceiling_div.
Qed.

Lemma nb_physical_lines_of_empty (width : Z) :
  width ≠ 0 → nb_physical_lines_of width 0 = inr 1.
Proof.
  intros Hw. rewrite nb_physical_lines_of_nonzero by done.
  simpl. by rewrite Zdiv_0_l.
Qed.

Lemma nb_physical_lines_of_ge_1 (width length h : Z) :
  nb_physical_lines_of width length = inr h → 1 <= h ∧ width ≠ 0.
Proof.
  unfold nb_physical_lines_of.
  destruct (Z.eqb_spec width 0); [done|].
  intros [= <-]. split; [lia | done].
Qed.

(** C2. With a width of at least one column, the height computed for a
    text is [max(1, c)] where [c] is the ceiling of [len(text) / width],
    the one integer with [(c - 1) * width < len(text) <= c * width]; an
    empty text has height 1. *)
Theorem compute_nb_physical_lines_is_ceiling (t : string) (s : LinesSession) :
  1 <= available_width s →
  ∃ c : Z,
    (c - 1) * available_width s < len t <= c * available_width s ∧
    _compute_nb_physical_lines t s = (inr (Z.max 1 c), s, []) ∧
    (len t = 0 → _compute_nb_physical_lines t s = (inr 1, s, [])).
Proof.
  intros Hw. exists (- (- len t / available_width s)).
  split; [apply ceiling_quotient_bounds; lia|].
  unfold _compute_nb_physical_lines, bind, gets, of_result.
  rewrite nb_physical_lines_of_nonzero by lia.
  split; [done|]. intros ->. simpl. by rewrite Zdiv_0_l.
Qed.

Lemma compute_nb_physical_lines_is_ceiling_witness :
  1 <= available_width (LinesSession_init 80) ∧
  ∃ c : Z,
    (c - 1) * 80 < len (repeat_char "a" 150) <= c * 80 ∧
    _compute_nb_physical_lines (repeat_char "a" 150) (LinesSession_init 80)
      = (inr (Z.max 1 c), LinesSession_init 80, []) ∧
    (len (repeat_char "a" 150) = 0 →
     _compute_nb_physical_lines (repeat_char "a" 150) (LinesSession_init 80)
       = (inr 1, LinesSession_init 80, [])).
Proof.
  split; [simpl; lia|].
  apply (compute_nb_physical_lines_is_ceiling (repeat_char "a" 150)
           (LinesSession_init 80)).
  simpl; lia.
Defined.

(** ** Projections of the output *)

Lemma ink_app (o1 o2 : list event) : ink (o1 ++ o2) = ink o1 ++ ink o2.
Proof. apply List.filter_app. Qed.

Lemma erased_rows_app (o1 o2 : list event) :
  erased_rows (o1 ++ o2) = erased_rows o1 ++ erased_rows o2.
Proof. unfold erased_rows. by rewrite List.filter_app, map_app. Qed.

Lemma printed_texts_app (o1 o2 : list event) :
  printed_texts (o1 ++ o2) = printed_texts o1 ++ printed_texts o2.
Proof. apply flat_map_app. Qed.

Lemma erased_rows_ink (o : list event) : erased_rows (ink o) = erased_rows o.
Proof.
  unfold erased_rows, ink. f_equal.
  induction o as [|[r []] o IH]; simpl; rewrite ?IH; done.
Qed.

Lemma printed_texts_ink (o : list event) : printed_texts (ink o) = printed_texts o.
Proof.
  unfold ink.
  induction o as [|[r []] o IH]; simpl; rewrite ?IH; done.
Qed.

Lemma erased_rows_erase_rows (rows : list Z) : erased_rows (erase_rows rows) = rows.
Proof. induction rows as [|r rows IH]; [done|]. cbn. by f_equal. Qed.

Lemma printed_texts_erase_rows (rows : list Z) : printed_texts (erase_rows rows) = [].
Proof. induction rows as [|r rows IH]; [done|]. by cbn. Qed.

Lemma erased_rows_blank_rows (rows : list Z) : erased_rows (blank_rows rows) = rows.
Proof. induction rows as [|r rows IH]; [done|]. cbn. by f_equal. Qed.

Lemma printed_texts_blank_rows (rows : list Z) :
  printed_texts (blank_rows rows) = map (λ r, (r, EmptyString)) rows.
Proof. induction rows as [|r rows IH]; [done|]. cbn. by f_equal. Qed.

(** ** Running the printing primitives *)

Lemma bind_run {St A B} (m : M St A) (k : A → M St B) s a s1 o1 r s2 o2 :
  m s = (inr a, s1, o1) → k a s1 = (r, s2, o2) →
  bind m k s = (r, s2, o1 ++ o2).
Proof. intros Hm Hk. unfold bind. by rewrite Hm, Hk. Qed.

Lemma bind_gets {St A B} (f : St → A) (k : A → M St B) s :
  bind (gets f) k s = k (f s) s.
Proof. unfold bind, gets. by destruct (k (f s) s) as [[??]?]. Qed.

Lemma bind_modify {St B} (f : St → St) (k : unit → M St B) s :
  bind (modify f) k s = k tt (f s).
Proof. unfold bind, modify. by destruct (k tt (f s)) as [[??]?]. Qed.

Lemma bind_of_result {St A B} (a : A) (k : A → M St B) s :
  bind (of_result (inr a)) k s = k a s.
Proof. unfold bind, of_result. by destruct (k a s) as [[??]?]. Qed.

Lemma bind_ret {St A B} (a : A) (k : A → M St B) s :
  bind (ret a) k s = k a s.
Proof. unfold bind, ret. by destruct (k a s) as [[??]?]. Qed.

Lemma set_current_line_id (s : LinesSession) :
  set_current_line (current_line s) s = s.
Proof. by destruct s. Qed.

Lemma set_cursor_run (n : Z) (s : LinesSession) :
  ∃ o, _set_cursor_to_line_number n s = (inr tt, set_current_line n s, o)
       ∧ ink o = [].
Proof.
  unfold _set_cursor_to_line_number, bind, gets, modify, print. simpl.
  destruct (n - current_line s =? 0); [|destruct (0 <? n - current_line s)];
    eexists; split; done.
Qed.

Lemma erase_loop_run (rows : list Z) (s : LinesSession) :
  ∃ c o,
    for_each rows (λ position,
      _set_cursor_to_line_number position ;; print EraseLine) s
    = (inr tt, set_current_line c s, o)
    ∧ ink o = erase_rows rows.
Proof.
  revert s. induction rows as [|r rows IH]; intros s.
  - exists (current_line s), []. by rewrite set_current_line_id.
  - destruct (set_cursor_run r s) as (o1 & H1 & Ho1).
    destruct (IH (set_current_line r s)) as (c & o2 & H2 & Ho2).
    exists c, ((o1 ++ [(r, EraseLine)]) ++ o2). split.
    + simpl. eapply bind_run; [eapply bind_run; [exact H1|done]|].
      simpl. exact H2.
    + rewrite !ink_app, Ho1, Ho2. done.
Qed.

Lemma print_at_line_run (t : string) (n h : Z) (s : LinesSession) :
  nb_physical_lines_of (available_width s) (len t) = inr h →
  ∃ o,
    _print_at_line t n s
    = (inr tt,
       mkSession (Z.max (lines_counter s) (n + h + 1)) (lines_index s)
         (n + h) (available_width s), o)
    ∧ ink o = erase_rows (range n (n + h)) ++ [(n, Text t)].
Proof.
  intros Hh.
  destruct (erase_loop_run (range n (n + h)) s) as (c & o1 & H1 & Ho1).
  destruct (set_cursor_run n (set_current_line c s)) as (o2 & H2 & Ho2).
  eexists. split.
  - unfold _print_at_line.
    eapply bind_run.
    { unfold _compute_nb_physical_lines, bind, gets, of_result.
      rewrite Hh. reflexivity. }
    eapply bind_run; [exact H1|].
    eapply bind_run; [exact H2|].
    unfold bind, print, modify, gets. simpl. reflexivity.
  - simpl. rewrite !ink_app, Ho1, Ho2. done.
Qed.

Lemma print_blank_run (n : Z) (s : LinesSession) :
  available_width s ≠ 0 →
  ∃ o,
    _print_at_line "" n s
    = (inr tt,
       mkSession (Z.max (lines_counter s) (n + 2)) (lines_index s)
         (n + 1) (available_width s), o)
    ∧ ink o = blank_rows [n].
Proof.
  intros Hw.
  destruct (print_at_line_run "" n 1 s) as (o & H & Ho).
  { by apply nb_physical_lines_of_empty. }
  exists o. split.
  - rewrite H. do 2 f_equal. f_equal. lia.
  - rewrite Ho. replace (n + 1) with (Z.succ n) by lia.
    unfold range. replace (Z.succ n - n) with 1 by lia. done.
Qed.

(** Empty lines printed at [len] successive rows from row [a] on. *)
Lemma blank_loop_run (len : nat) (a : Z) (s : LinesSession) :
  available_width s ≠ 0 →
  ∃ o,
    for_each (seqZ a (Z.of_nat len)) (λ n, _print_at_line "" n) s
    = (inr tt,
       match len with
       | O => s
       | S _ => mkSession (Z.max (lines_counter s) (a + Z.of_nat len + 1))
                  (lines_index s) (a + Z.of_nat len) (available_width s)
       end, o)
    ∧ ink o = blank_rows (seqZ a (Z.of_nat len)).
Proof.
  revert a s. induction len as [|len IH]; intros a s Hw.
  - exists []. done.
  - rewrite seqZ_cons by lia.
    replace (Z.pred (Z.of_nat (S len))) with (Z.of_nat len) by lia.
    destruct (print_blank_run a s Hw) as (o1 & H1 & Ho1).
    destruct (IH (Z.succ a)
                (mkSession (Z.max (lines_counter s) (a + 2)) (lines_index s)
                   (a + 1) (available_width s)) Hw) as (o2 & H2 & Ho2).
    exists (o1 ++ o2). split.
    + simpl. eapply bind_run; [exact H1|]. rewrite H2.
      do 2 f_equal. destruct len; simpl; f_equal; lia.
    + rewrite ink_app, Ho1, Ho2. done.
Qed.

Lemma blank_range_run (a b : Z) (s : LinesSession) :
  available_width s ≠ 0 →
  ∃ o,
    for_each (range a b) (λ n, _print_at_line "" n) s
    = (inr tt,
       if a <? b
       then mkSession (Z.max (lines_counter s) (b + 1)) (lines_index s) b
              (available_width s)
       else s, o)
    ∧ ink o = blank_rows (range a b).
Proof.
  intros Hw. unfold range.
  destruct (blank_loop_run (Z.to_nat (b - a)) a s Hw) as (o & H & Ho).
  destruct (Z.ltb_spec a b) as [Hab|Hab].
  - rewrite Z2Nat.id in H, Ho by lia. exists o. split; [|done].
    rewrite H. do 2 f_equal.
    destruct (Z.to_nat (b - a)) eqn:E; [lia|]. f_equal; lia.
  - replace (Z.to_nat (b - a)) with 0%nat in H, Ho by lia.
    exists o. rewrite seqZ_nil by lia. split; [exact H|exact Ho].
Qed.

(** [_extend(size)] prints [size + 1] empty lines, at the rows from
    [lines_counter - 1] on, and [lines_counter] grows by [size + 1]. *)
Lemma extend_run (size : Z) (s : LinesSession) :
  available_width s ≠ 0 → 0 <= size →
  ∃ o,
    _extend size s
    = (inr tt,
       mkSession (lines_counter s + size + 1) (lines_index s)
         (lines_counter s + size) (available_width s), o)
    ∧ ink o = blank_rows (range (lines_counter s - 1) (lines_counter s + size)).
Proof.
  intros Hw Hsize.
  destruct (blank_range_run (lines_counter s - 1) (lines_counter s + size) s Hw)
    as (o & H & Ho).
  exists o. split; [|done].
  unfold _extend. rewrite bind_gets, H. do 2 f_equal.
  destruct (Z.ltb_spec (lines_counter s - 1) (lines_counter s + size)); [|lia].
  f_equal; lia.
Qed.

Lemma truncate_run (s : LinesSession) :
  available_width s ≠ 0 → current_line s < lines_counter s →
  ∃ o,
    _truncate s
    = (inr tt,
       mkSession (current_line s + 1) (lines_index s) (current_line s)
         (available_width s), o)
    ∧ ink o = blank_rows (range (current_line s) (lines_counter s - 1)).
Proof.
  intros Hw Hcl.
  destruct (blank_range_run (current_line s) (lines_counter s - 1) s Hw)
    as (o1 & H1 & Ho1).
  set (s1 := if current_line s <? lines_counter s - 1
             then mkSession (Z.max (lines_counter s) (lines_counter s - 1 + 1))
                    (lines_index s) (lines_counter s - 1) (available_width s)
             else s) in *.
  destruct (set_cursor_run (current_line s) s1) as (o2 & H2 & Ho2).
  exists (o1 ++ o2 ++ []). split.
  - unfold _truncate. rewrite !bind_gets.
    eapply bind_run; [exact H1|].
    eapply bind_run; [exact H2|].
    unfold bind, gets, modify. simpl. do 2 f_equal.
    subst s1. destruct (Z.ltb_spec (current_line s) (lines_counter s - 1));
      unfold set_current_line, set_lines_counter; simpl; f_equal; lia.
  - rewrite !ink_app, Ho1, Ho2. simpl. by rewrite app_nil_r.
Qed.

(** The tests of the repository, [test_print_at_line] with its three
    rows and [test_print_multiple_lines_at_line]. *)
Example test_print_at_line :
  Forall (λ '(line_to_print_to, expected_net_jump),
            let '(r, s, o) := _print_at_line "hello world" line_to_print_to
                                (mkSession 10 [] 7 80) in
            r = inr tt ∧
            sum_jumps o = expected_net_jump ∧
            ink o = [(line_to_print_to, EraseLine);
                     (line_to_print_to, Text "hello world")] ∧
            current_line s = line_to_print_to + 1 ∧
            lines_counter s = 10)
    [(7, 0); (8, 1); (2, -5)].
Proof. repeat constructor. Qed.

Example test_print_multiple_lines_at_line :
  let '(r, s, o) := _print_at_line (repeat_char "a" 150) 2
                      (mkSession 10 [] 2 80) in
  r = inr tt ∧ lines_counter s = 10 ∧ current_line s = 4.
Proof. vm_compute. tauto. Qed.

(** ** Truncate and extend *)

(** C6, at the call [_extend(0)] that [line] makes for a text of one
    row: one empty line is printed, at row [lines_counter - 1], and
    [lines_counter] grows by one. *)
Theorem extend_zero_prints_one_line :
  _extend 0 (LinesSession_init 80)
  = (inr tt, mkSession 2 [] 1 80,
     [(0, CursorCol0); (0, EraseLine); (0, CursorCol0); (0, Text "")]).
Proof. reflexivity. Qed.

(** ** Updating a line *)

Lemma lookup_entry_Some (key : nat) (l : list _LineEntry) pos e :
  lookup_entry key l = Some (pos, e) → l !! pos = Some e ∧ line_obj e = key.
Proof.
  revert pos e. induction l as [|e0 l IH]; intros pos e; simpl; [done|].
  destruct (lookup_entry key l) as [[i e']|].
  - intros [= <- <-]. by apply IH.
  - case_decide; [|done]. by intros [= <- <-].
Qed.

Lemma compute_run (t : string) (s : LinesSession) :
  _compute_nb_physical_lines t s
  = (nb_physical_lines_of (available_width s) (len t), s, []).
Proof. unfold _compute_nb_physical_lines. by rewrite bind_gets. Qed.

Lemma bind_compute {B} (t : string) (h : Z) (k : Z → M LinesSession B) s :
  nb_physical_lines_of (available_width s) (len t) = inr h →
  bind (_compute_nb_physical_lines t) k s = k h s.
Proof.
  intros Hh. unfold bind. rewrite compute_run, Hh.
  by destruct (k h s) as [[??]?].
Qed.

Lemma print_line_in_same_height (key : nat) (t : string) (s : LinesSession) pos e :
  lookup_entry key (lines_index s) = Some (pos, e) →
  nb_physical_lines_of (available_width s) (len t) = inr (nb_physical_lines e) →
  ∃ o,
    print_line_in key (inr t) s
    = (inr tt,
       mkSession
         (Z.max (lines_counter s) (line_number e + nb_physical_lines e + 1))
         (alter (set_text t) pos (lines_index s))
         (line_number e + nb_physical_lines e) (available_width s), o)
    ∧ ink o = erase_rows (range (line_number e)
                            (line_number e + nb_physical_lines e))
              ++ [(line_number e, Text t)].
Proof.
  intros Hlook Hh.
  set (s1 := set_lines_index (alter (set_text t) pos (lines_index s)) s).
  destruct (print_at_line_run t (line_number e) (nb_physical_lines e) s1 Hh)
    as (o & H & Ho).
  exists (o ++ []). split; [|by rewrite app_nil_r].
  unfold print_line_in. rewrite bind_gets, Hlook, bind_of_result, bind_modify.
  fold s1. rewrite (bind_compute t (nb_physical_lines e)) by done.
  rewrite Z.ltb_irrefl, Z.eqb_refl. simpl. rewrite bind_ret.
  eapply bind_run; [exact H|]. done.
Qed.

Lemma bind_out_ok {St A B} (m : M St A) (k : A → M St B) s a s1 o1 :
  m s = (inr a, s1, o1) → (bind m k s).2 = o1 ++ (k a s1).2.
Proof. intros Hm. unfold bind. rewrite Hm. by destruct (k a s1) as [[??]?]. Qed.

(** What [print_line] prints up to and including the new text: the empty
    lines of the extension when the line grows, then the print step,
    which erases the rows of the new height and writes the text. *)
Lemma print_line_in_output (key : nat) (t : string) (s : LinesSession) pos e new :
  lookup_entry key (lines_index s) = Some (pos, e) →
  nb_physical_lines_of (available_width s) (len t) = inr new →
  ∃ rest,
    ink (print_line_in key (inr t) s).2
    = (if nb_physical_lines e <? new
       then blank_rows (range (lines_counter s - 1)
                          (lines_counter s + (new - nb_physical_lines e)))
       else [])
      ++ erase_rows (range (line_number e) (line_number e + new))
      ++ (line_number e, Text t) :: rest.
Proof.
  intros Hlook Hh.
  destruct (nb_physical_lines_of_ge_1 _ _ _ Hh) as [_ Hw].
  set (s1 := set_lines_index (alter (set_text t) pos (lines_index s)) s).
  unfold print_line_in. rewrite bind_gets, Hlook, bind_of_result, bind_modify.
  fold s1. rewrite (bind_compute t new) by done.
  destruct (Z.ltb_spec (nb_physical_lines e) new) as [Hlt|Hge]; simpl.
  - destruct (extend_run (new - nb_physical_lines e) s1 Hw ltac:(lia))
      as (o1 & H1 & Ho1).
    rewrite (bind_out_ok _ _ _ _ _ _ H1).
    edestruct (print_at_line_run t (line_number e) new) as (o2 & H2 & Ho2);
      [|rewrite (bind_out_ok _ _ _ _ _ _ H2)]; [exact Hh|].
    eexists. rewrite !ink_app, Ho1, Ho2, <- !app_assoc. simpl. reflexivity.
  - rewrite bind_ret.
    destruct (print_at_line_run t (line_number e) new s1 Hh) as (o2 & H2 & Ho2).
    rewrite (bind_out_ok _ _ _ _ _ _ H2).
    eexists. rewrite !ink_app, Ho2, <- !app_assoc. simpl. reflexivity.
Qed.

Section Interface.

Context {value : Type}.
Variable str_format : string → gmap string value → exn + string.

Lemma in_session_run {A} (m : M LinesSession A) (w : world value) r s o :
  m (session w) = (r, s, o) → in_session m w = (r, set_session s w, o).
Proof. intros H. unfold in_session. by rewrite H. Qed.

Lemma in_session_out {A} (m : M LinesSession A) (w : world value) :
  (in_session m w).2 = (m (session w)).2.
Proof. unfold in_session. by destruct (m (session w)) as [[??]?]. Qed.

Lemma Line_new_ok (tpl : string) (kw : gmap string value) :
  kw !! "session" = None → Line_new tpl kw = inr (mkLine tpl kw).
Proof. intros H. unfold Line_new. by rewrite H. Qed.

Lemma Line_new_plain (tpl : string) :
  Line_new (value:=value) tpl ∅ = inr (mkLine tpl ∅).
Proof. by apply Line_new_ok. Qed.

(** [line] once the Line object is made. *)
Lemma line_made (tpl : string) (kw : gmap string value) (w : world value) :
  kw !! "session" = None →
  line str_format tpl kw w
  = bind (modify (set_handles (handles w ++ [mkLine tpl kw])))
      (λ _, bind (in_session
                    (line_in (length (handles w))
                       (Line_text str_format (mkLine tpl kw))))
              (λ _, ret (length (handles w)))) w.
Proof.
  intros H. unfold line.
  by rewrite (Line_new_ok tpl kw H), bind_of_result, bind_gets.
Qed.

(** [line] when the Line object cannot be made. *)
Lemma line_not_made (tpl : string) (kw : gmap string value) (w : world value)
    v :
  kw !! "session" = Some v →
  line str_format tpl kw w = (inl (TypeError "session"), w, []).
Proof. intros H. unfold line, Line_new. by rewrite H. Qed.

Lemma print_line_run (key : nat) (w : world value) l :
  handles w !! key = Some l →
  print_line str_format key w
  = in_session (print_line_in key (Line_text str_format l)) w.
Proof. intros H. unfold print_line. by rewrite bind_gets, H. Qed.

Lemma print_line_handles (key : nat) (w : world value) :
  handles (world_after (print_line str_format key) w) = handles w.
Proof.
  unfold world_after, print_line. rewrite bind_gets.
  destruct (handles w !! key); [|done].
  unfold in_session. by destruct (print_line_in _ _ _) as [[??]?].
Qed.

(** C4. When the new text of a registered line has the height the entry
    has, [print_line] writes one text, the new one at the row of the
    entry, after erasing the rows of this entry and no other; the entry
    gets the new text and keeps its row and height, and every other
    entry is as it was. *)
Theorem update_same_height_reprints_only_that_line
    (w : world value) (key : nat) (l : Line value) (t : string) pos e :
  handles w !! key = Some l →
  Line_text str_format l = inr t →
  lookup_entry key (lines_index (session w)) = Some (pos, e) →
  nb_physical_lines_of (available_width (session w)) (len t)
    = inr (nb_physical_lines e) →
  ∃ w' o,
    print_line str_format key w = (inr tt, w', o) ∧
    printed_texts o = [(line_number e, t)] ∧
    erased_rows o
      = range (line_number e) (line_number e + nb_physical_lines e) ∧
    lines_index (session w') !! pos = Some (set_text t e) ∧
    (∀ j, j ≠ pos →
       lines_index (session w') !! j = lines_index (session w) !! j) ∧
    length (lines_index (session w')) = length (lines_index (session w)) ∧
    handles w' = handles w.
Proof.
  intros Hl Ht Hlook Hh.
  destruct (print_line_in_same_height key t (session w) pos e Hlook Hh)
    as (o & H & Ho).
  destruct (lookup_entry_Some _ _ _ _ Hlook) as [Hpos _].
  eexists _, o. split.
  { rewrite (print_line_run key w l Hl), Ht. by apply in_session_run. }
  simpl. split.
  { rewrite <- printed_texts_ink, Ho, printed_texts_app,
      printed_texts_erase_rows. done. }
  split.
  { rewrite <- erased_rows_ink, Ho, erased_rows_app,
      erased_rows_erase_rows. simpl. by rewrite app_nil_r. }
  split. { by rewrite list_lookup_alter_eq, Hpos. }
  split. { intros j Hj. by rewrite list_lookup_alter_ne. }
  split; [by rewrite length_alter|done].
Qed.

(** C9. [update] with a template [t] leaves the handle with the
    template [t] and exactly the keyword arguments of the call, whatever
    it held before and whatever printing does; its text is then [t]
    itself if there are no keyword arguments, and [t] formatted with
    them otherwise. *)
Theorem update_with_template_replaces_template_and_params
    (w : world value) (key : nat) (l : Line value) (t : string)
    (kw : gmap string value) :
  handles w !! key = Some l →
  let w' := world_after (Line_update str_format key (Some t) kw) w in
  handles w' !! key = Some (mkLine t kw) ∧
  Line_text str_format <$> handles w' !! key
    = Some (if decide (kw = ∅) then inr t else str_format t kw).
Proof.
  intros Hl w'.
  assert (Hw' : handles w' !! key = Some (mkLine t kw)).
  { subst w'. unfold world_after, Line_update.
    rewrite bind_gets, Hl, bind_modify. simpl.
    pose proof (print_line_handles key
      (set_handles (<[key:=mkLine t (kw ∪ ∅)]> (handles w)) w)) as Hh.
    unfold world_after in Hh. rewrite Hh. simpl.
    rewrite list_lookup_insert_eq by (by eapply lookup_lt_Some).
    by rewrite (right_id_L ∅ (∪)). }
  split; [done|]. rewrite Hw'. done.
Qed.

End Interface.

(** A session of width 80 with the three lines "Hello", "World" and "!",
    made in this order, where the handle of the second one now holds
    "Earth": the first and the third entry are the other entries. *)
Lemma update_same_height_reprints_only_that_line_witness :
  let w := mkWorld [mkLine "Hello" ∅; mkLine "Earth" ∅; mkLine "!" ∅]
             (mkSession 4
                [mkEntry 0 "Hello" 0 1; mkEntry 1 "World" 1 1;
                 mkEntry 2 "!" 2 1] 3 80) in
  ∃ w' o,
    print_line named_format 1 w = (inr tt, w', o) ∧
    printed_texts o = [(1, "Earth")] ∧
    erased_rows o = range 1 (1 + 1) ∧
    lines_index (session w') !! 1%nat = Some (mkEntry 1 "Earth" 1 1) ∧
    (∀ j, j ≠ 1%nat →
       lines_index (session w') !! j = lines_index (session w) !! j) ∧
    length (lines_index (session w')) = length (lines_index (session w)) ∧
    handles w' = handles w.
Proof.
  intros w.
  apply (update_same_height_reprints_only_that_line named_format w 1
           (mkLine "Earth" ∅) "Earth" 1 (mkEntry 1 "World" 1 1));
    reflexivity.
Defined.

(** C7, as stated, fails when a line shrinks. A line of 200 characters
    on a terminal of width 80 has rows 0, 1 and 2; when it is updated to
    "x", only row 0 is erased before "x" is written at row 0. *)
Lemma print_step_leaves_old_rows_unerased :
  let w := world_after (line named_format (repeat_char "x" 200) ∅)
             (new_world 80) in
  let o := output_of (Line_update named_format 0 (Some "x") ∅) w in
  rows_and_heights (session w) = [(0, 3)] ∧
  erased_rows (before_text 0 "x" o) = [0] ∧
  ¬ (∀ r, 0 <= r < 0 + Z.max 3 1 → r ∈ erased_rows (before_text 0 "x" o)).
Proof.
  intros w o.
  assert (He : erased_rows (before_text 0 "x" o) = [0])
    by (vm_compute; reflexivity).
  split; [vm_compute; reflexivity|]. split; [exact He|].
  intros H. specialize (H 1 ltac:(lia)). rewrite He in H.
  apply list_elem_of_singleton in H. lia.
Qed.

Lemma update_with_template_replaces_template_and_params_witness :
  let w := world_after (line named_format "Progress: {percent}"
                          {[ "percent" := "0" ]}) (new_world 80) in
  let w' := world_after (Line_update named_format 0 (Some "Done") ∅) w in
  handles w' !! 0%nat = Some (mkLine "Done" ∅) ∧
  Line_text named_format <$> handles w' !! 0%nat = Some (inr "Done").
Proof.
  intros w.
  refine (update_with_template_replaces_template_and_params named_format w 0
            (mkLine "Progress: {percent}" {[ "percent" := "0" ]}) "Done" ∅ _).
  vm_compute; reflexivity.
Defined.



(** ** The width of the terminal *)



(** ** Rows of the entries when a line is resized *)

Lemma total_height_nonneg (width : Z) (l : list _LineEntry) :
  Forall (entry_ok width) l → 0 <= total_height l.
Proof.
  induction 1 as [|e l He _ IH]; simpl; [done|].
  apply nb_physical_lines_of_ge_1 in He. lia.
Qed.

Lemma renumber_contiguous (row : Z) (l : list _LineEntry) :
  contiguous_from row (renumber row l).
Proof.
  revert row. induction l as [|e l IH]; intros row; simpl; [done|].
  split; [done|]. apply IH.
Qed.

Lemma renumber_shift (row delta : Z) (l : list _LineEntry) :
  contiguous_from row l →
  renumber (row + delta) l = map (shift_row delta) l.
Proof.
  revert row. induction l as [|e l IH]; intros row; simpl; [done|].
  intros [<- Hl]. unfold shift_row at 1. f_equal.
  rewrite <- (IH _ Hl). f_equal. unfold entry_end. lia.
Qed.

Lemma contiguous_from_app (row : Z) (l1 l2 : list _LineEntry) :
  contiguous_from row (l1 ++ l2)
  ↔ contiguous_from row l1 ∧ contiguous_from (row + total_height l1) l2.
Proof.
  revert row. induction l1 as [|e l1 IH]; intros row; simpl.
  - rewrite Z.add_0_r. tauto.
  - rewrite IH. unfold entry_end.
    split.
    + intros (<- & H1 & H2). repeat split; [done|].
      by replace (line_number e + (nb_physical_lines e + total_height l1))
        with (line_number e + nb_physical_lines e + total_height l1) by lia.
    + intros ((<- & H1) & H2). repeat split; [done|].
      by replace (line_number e + nb_physical_lines e + total_height l1)
        with (line_number e + (nb_physical_lines e + total_height l1)) by lia.
Qed.

Lemma contiguous_from_end (row fallback : Z) (l : list _LineEntry) :
  contiguous_from row l → l ≠ [] → chain_end fallback l = row + total_height l.
Proof.
  revert row. induction l as [|e l IH]; intros row; simpl; [done|].
  intros [<- Hl] _. destruct l as [|e' l].
  - unfold chain_end, entry_end. simpl. lia.
  - specialize (IH _ Hl ltac:(done)).
    unfold chain_end in *. rewrite last_cons.
    destruct (last (e' :: l)) eqn:E.
    + rewrite IH. unfold entry_end. lia.
    + by apply last_None in E.
Qed.

Lemma Forall_entry_ok_renumber (width row : Z) (l : list _LineEntry) :
  Forall (entry_ok width) l → Forall (entry_ok width) (renumber row l).
Proof.
  intros H. revert row. induction H as [|e l He _ IH]; intros row; simpl.
  - constructor.
  - constructor; [exact He|apply IH].
Qed.

Lemma renumber_total_height (row : Z) (l : list _LineEntry) :
  total_height (renumber row l) = total_height l.
Proof.
  revert row. induction l as [|e l IH]; intros row; simpl; [done|].
  by rewrite IH.
Qed.

(** The loop that follows a resized line puts the rest of the chain one
    entry after the other and reprints each entry at its row. *)
Lemma shift_following_run (chain : list _LineEntry) (pos : nat) (cur : Z)
    (s : LinesSession) (pre : list _LineEntry) :
  Forall (entry_ok (available_width s)) chain →
  lines_index s = pre ++ chain → length pre = pos →
  current_line s = cur → cur < lines_counter s →
  ∃ o,
    shift_following chain pos cur s
    = (inr tt,
       mkSession (Z.max (lines_counter s) (cur + total_height chain + 1))
         (pre ++ renumber cur chain) (cur + total_height chain)
         (available_width s), o)
    ∧ ink o = flat_map entry_ink (renumber cur chain).
Proof.
  revert pos cur s pre.
  induction chain as [|e rest IH]; intros pos cur s pre Hok Hidx Hpos Hcl Hlc.
  - exists []. split; [|done]. simpl. unfold ret. do 2 f_equal.
    destruct s; simpl in *. subst. f_equal; lia.
  - apply Forall_cons in Hok as [He Hrest].
    set (e' := set_line_number cur e).
    set (s1 := set_lines_index (pre ++ e' :: rest) s).
    destruct (print_at_line_run (text e) cur (nb_physical_lines e) s1 He)
      as (o1 & H1 & Ho1).
    pose proof (nb_physical_lines_of_ge_1 _ _ _ He) as [Hnb _].
    pose proof (total_height_nonneg _ _ Hrest) as Htot.
    edestruct (IH (S pos) (cur + nb_physical_lines e)
                 (mkSession
                    (Z.max (lines_counter s1) (cur + nb_physical_lines e + 1))
                    (lines_index s1) (cur + nb_physical_lines e)
                    (available_width s1)) (pre ++ [e']))
      as (o2 & H2 & Ho2).
    { exact Hrest. }
    { simpl. by rewrite <- app_assoc. }
    { rewrite length_app. simpl. lia. }
    { done. }
    { simpl. lia. }
    exists (o1 ++ o2). split.
    + simpl. rewrite bind_modify.
      replace (alter (set_line_number cur) pos (lines_index s))
        with (pre ++ e' :: rest).
      2:{ rewrite Hidx. subst pos.
          replace (length pre) with (length pre + 0)%nat by lia.
          by rewrite alter_app_r. }
      fold s1. eapply bind_run; [exact H1|]. rewrite H2. simpl.
      do 2 f_equal. rewrite <- app_assoc. simpl. f_equal; lia.
    + rewrite ink_app, Ho1, Ho2. simpl. done.
Qed.

Lemma alter_middle {A} (f : A → A) (pre : list A) (x : A) (post : list A) :
  alter f (length pre) (pre ++ x :: post) = pre ++ f x :: post.
Proof.
  replace (length pre) with (length pre + 0)%nat by lia.
  by rewrite alter_app_r.
Qed.

Lemma drop_middle {A} (pre : list A) (x : A) (post : list A) :
  drop (S (length pre)) (pre ++ x :: post) = post.
Proof.
  rewrite (cons_middle x pre post), app_assoc.
  rewrite drop_app_length'; [done|]. rewrite length_app. simpl. lia.
Qed.

Lemma lookup_entry_split (key : nat) (l : list _LineEntry) pos e :
  lookup_entry key l = Some (pos, e) →
  ∃ pre post, l = pre ++ e :: post ∧ pos = length pre.
Proof.
  intros H. apply lookup_entry_Some in H as [H _].
  by apply list_elem_of_split_length.
Qed.

(** [print_line] for a text whose height [new] is not the height the
    entry has: the state it ends in and what it prints. [pre] and [post]
    are the entries before and after the entry of the line. *)
Lemma print_line_in_resize (key : nat) (t : string) (s : LinesSession)
    pre e post new :
  lookup_entry key (lines_index s) = Some (length pre, e) →
  lines_index s = pre ++ e :: post →
  nb_physical_lines_of (available_width s) (len t) = inr new →
  new ≠ nb_physical_lines e →
  Forall (entry_ok (available_width s)) post →
  let old := nb_physical_lines e in
  let row := line_number e in
  let ending := row + new + total_height post in
  ∃ o,
    print_line_in key (inr t) s
    = (inr tt,
       mkSession
         (if old <? new
          then Z.max (lines_counter s + (new - old) + 1) (ending + 1)
          else ending + 1)
         (pre ++ set_nb_physical_lines new (set_text t e)
              :: renumber (row + new) post)
         ending (available_width s), o)
    ∧ ink o
      = (if old <? new
         then blank_rows (range (lines_counter s - 1)
                            (lines_counter s + (new - old)))
         else [])
        ++ (erase_rows (range row (row + new)) ++ [(row, Text t)])
        ++ flat_map entry_ink (renumber (row + new) post)
        ++ (if new <? old
            then blank_rows (range ending
                               (Z.max (lines_counter s) (ending + 1) - 1))
            else []).
Proof.
  intros Hlook Hidx Hh Hne Hok old row ending.
  destruct (nb_physical_lines_of_ge_1 _ _ _ Hh) as [Hnew Hw].
  pose proof (total_height_nonneg _ _ Hok) as Htot.
  set (idx1 := pre ++ set_text t e :: post).
  set (idx2 := pre ++ set_nb_physical_lines new (set_text t e) :: post).
  set (s1 := set_lines_index idx1 s).
  (* the extension *)
  assert (∃ o1 lc2 cl2,
    when (old <? new) (_extend (new - old)) s1
    = (inr tt, mkSession lc2 idx1 cl2 (available_width s), o1)
    ∧ lc2 = (if old <? new then lines_counter s + (new - old) + 1
             else lines_counter s)
    ∧ ink o1 = (if old <? new
                then blank_rows (range (lines_counter s - 1)
                                   (lines_counter s + (new - old)))
                else [])) as (o1 & lc2 & cl2 & H1 & Hlc2 & Ho1).
  { destruct (Z.ltb_spec old new) as [Hlt|Hge]; simpl.
    - destruct (extend_run (new - old) s1 Hw ltac:(lia)) as (o1 & H1 & Ho1).
      by eexists o1, _, _.
    - by eexists [], _, _. }
  set (s2 := mkSession lc2 idx1 cl2 (available_width s)) in *.
  (* the print step *)
  destruct (print_at_line_run t row new s2 Hh) as (o2 & H2 & Ho2).
  simpl in H2.
  set (s4 := mkSession (Z.max lc2 (row + new + 1)) idx2 (row + new)
               (available_width s)).
  (* the entries that follow *)
  destruct (shift_following_run post (S (length pre)) (row + new) s4
              (pre ++ [set_nb_physical_lines new (set_text t e)]))
    as (o3 & H3 & Ho3).
  { done. }
  { subst s4 idx2. simpl. by rewrite <- app_assoc. }
  { rewrite length_app. simpl. lia. }
  { done. }
  { simpl. lia. }
  simpl in H3. rewrite <- app_assoc in H3. simpl in H3.
  set (s5 := mkSession
               (Z.max (Z.max lc2 (row + new + 1))
                  (row + new + total_height post + 1))
               (pre ++ set_nb_physical_lines new (set_text t e)
                    :: renumber (row + new) post)
               (row + new + total_height post) (available_width s)) in *.
  (* the truncation *)
  assert (∃ o4,
    when (new <? old) _truncate s5
    = (inr tt,
       mkSession (if new <? old then ending + 1 else lines_counter s5)
         (lines_index s5) ending (available_width s), o4)
    ∧ ink o4 = (if new <? old
                then blank_rows (range ending (lines_counter s5 - 1))
                else [])) as (o4 & H4 & Ho4).
  { destruct (Z.ltb_spec new old) as [Hlt|Hge]; simpl.
    - destruct (truncate_run s5 Hw) as (o4 & H4 & Ho4); [simpl; lia|].
      by exists o4.
    - by exists []. }
  exists (o1 ++ o2 ++ o3 ++ o4). split.
  - unfold print_line_in.
    rewrite bind_gets, Hlook, bind_of_result, bind_modify.
    rewrite Hidx, alter_middle. fold idx1 s1.
    rewrite (bind_compute t new) by done.
    eapply bind_run; [exact H1|].
    eapply bind_run; [exact H2|].
    eapply bind_run.
    { replace (negb (nb_physical_lines e =? new)) with true.
      2:{ symmetry. apply negb_true_iff, Z.eqb_neq. fold old. lia. }
      simpl. rewrite bind_modify. simpl.
      unfold idx1. rewrite alter_middle, drop_middle. exact H3. }
    etrans; [exact H4|]. do 2 f_equal. subst s5. simpl. f_equal.
    destruct (Z.ltb_spec new old), (Z.ltb_spec old new); subst ending; lia.
  - rewrite !ink_app, Ho1, Ho2, Ho3, Ho4. do 3 f_equal.
    destruct (Z.ltb_spec new old) as [Hlt|Hge]; [|done].
    subst s5. simpl. do 2 f_equal.
    destruct (Z.ltb_spec old new); subst ending; lia.
Qed.

Lemma contiguous_from_contiguous (row : Z) (l : list _LineEntry) :
  contiguous_from row l → contiguous l.
Proof.
  revert row. induction l as [|e l IH]; intros row; [by intros _ []|].
  intros [_ Hl] [|i] e1 e2; simpl.
  - intros [= <-] H2. destruct l as [|e' l]; [done|].
    simpl in H2. injection H2 as <-. by destruct Hl as [-> _].
  - by apply (IH _ Hl).
Qed.

Lemma contiguous_contiguous_from (l : list _LineEntry) :
  contiguous l → ∃ row, contiguous_from row l.
Proof.
  induction l as [|e l IH]; intros H; [by exists 0|].
  exists (line_number e). split; [done|].
  destruct IH as [row Hrow].
  { intros i e1 e2 H1 H2. by apply (H (S i)). }
  destruct l as [|e' l]; [done|].
  destruct Hrow as [<- Hl]. split; [|done].
  by apply (H 0%nat).
Qed.

Lemma contiguous_from_middle (row : Z) (pre : list _LineEntry) e post :
  contiguous_from row (pre ++ e :: post)
  ↔ contiguous_from row pre ∧ line_number e = row + total_height pre
    ∧ contiguous_from (entry_end e) post.
Proof. rewrite contiguous_from_app. simpl. tauto. Qed.

Lemma chain_end_middle (fallback : Z) (pre : list _LineEntry) e post :
  chain_end fallback (pre ++ e :: post) = chain_end (entry_end e) post.
Proof.
  unfold chain_end. rewrite last_app, last_cons.
  by destruct (last post).
Qed.

Lemma chain_end_renumber (row : Z) (l : list _LineEntry) :
  chain_end row (renumber row l) = row + total_height l.
Proof.
  destruct l as [|e l]; [unfold chain_end; simpl; lia|].
  rewrite (contiguous_from_end row row); [|apply renumber_contiguous|done].
  by rewrite renumber_total_height.
Qed.

Lemma line_in_run (key : nat) (t : string) (s : LinesSession) nb :
  nb_physical_lines_of (available_width s) (len t) = inr nb →
  ∃ o,
    line_in key (inr t) s
    = (inr tt,
       mkSession (lines_counter s + nb)
         (lines_index s ++ [mkEntry key t (lines_counter s - 1) nb])
         (lines_counter s - 1 + nb) (available_width s), o)
    ∧ ink o
      = blank_rows (range (lines_counter s - 1) (lines_counter s + (nb - 1)))
        ++ erase_rows (range (lines_counter s - 1) (lines_counter s - 1 + nb))
        ++ [(lines_counter s - 1, Text t)].
Proof.
  intros Hh. destruct (nb_physical_lines_of_ge_1 _ _ _ Hh) as [Hnb Hw].
  set (s1 := set_lines_index
               (lines_index s ++ [mkEntry key t (lines_counter s - 1) nb]) s).
  destruct (extend_run (nb - 1) s1 Hw ltac:(lia)) as (o1 & H1 & Ho1).
  destruct (print_at_line_run t (lines_counter s - 1) nb
              (mkSession (lines_counter s1 + (nb - 1) + 1) (lines_index s1)
                 (lines_counter s1 + (nb - 1)) (available_width s1)) Hh)
    as (o2 & H2 & Ho2).
  exists (o1 ++ o2); split.
  - unfold line_in. rewrite bind_of_result, (bind_compute t nb) by done.
    rewrite bind_gets, bind_modify. fold s1.
    eapply bind_run; [exact H1|]. etrans; [exact H2|]. simpl.
    do 2 f_equal. f_equal; lia.
  - by rewrite ink_app, Ho1, Ho2.
Qed.

Lemma chain_end_contiguous (row : Z) (l : list _LineEntry) :
  contiguous_from row l → chain_end row l = row + total_height l.
Proof.
  destruct l as [|e l]; [unfold chain_end; simpl; lia|].
  intros H. by apply contiguous_from_end.
Qed.

Lemma chain_end_fallback (a b : Z) (l : list _LineEntry) :
  l ≠ [] → chain_end a l = chain_end b l.
Proof.
  unfold chain_end. destruct (last l) eqn:E; [done|].
  by apply last_None in E.
Qed.

(** [update] keeps a session well formed, and keeps its entries
    contiguous. *)
Lemma print_line_in_keeps_contiguous (key : nat) (t : string)
    (s : LinesSession) pos e new :
  session_ok s →
  lookup_entry key (lines_index s) = Some (pos, e) →
  nb_physical_lines_of (available_width s) (len t) = inr new →
  ∃ s' o,
    print_line_in key (inr t) s = (inr tt, s', o) ∧
    session_ok s' ∧
    available_width s' = available_width s ∧
    (contiguous (lines_index s) → contiguous (lines_index s')).
Proof.
  intros (Hok & Hcl & Hend) Hlook Hh.
  destruct (lookup_entry_split _ _ _ _ Hlook) as (pre & post & Hidx & ->).
  destruct (nb_physical_lines_of_ge_1 _ _ _ Hh) as [Hnew Hw].
  rewrite Hidx in Hok, Hend.
  apply Forall_app in Hok as [Hpre Hok].
  apply Forall_cons in Hok as [He Hpost].
  rewrite chain_end_middle in Hend.
  destruct (decide (new = nb_physical_lines e)) as [->|Hne].
  - destruct (print_line_in_same_height key t s _ e Hlook Hh) as (o & H & _).
    eexists _, o. split; [exact H|]. simpl.
    rewrite Hidx, alter_middle. split; [|split; [done|]].
    + split; [|split]; simpl.
      * apply Forall_app. split; [done|]. by constructor.
      * lia.
      * rewrite chain_end_middle. unfold entry_end in *. simpl. lia.
    + intros Hc. rewrite ?Hidx in Hc.
      apply contiguous_contiguous_from in Hc as [row Hc].
      apply (contiguous_from_contiguous row).
      apply contiguous_from_middle in Hc as (H1 & H2 & H3).
      apply contiguous_from_middle. by repeat split.
  - destruct (print_line_in_resize key t s pre e post new Hlook Hidx Hh Hne Hpost)
      as (o & H & _).
    eexists _, o. split; [exact H|]. simpl.
    pose proof (total_height_nonneg _ _ Hpost) as Htot.
    split; [|split; [done|]].
    + split; [|split]; simpl.
      * apply Forall_app. split; [done|].
        constructor; [exact Hh|]. by apply Forall_entry_ok_renumber.
      * destruct (nb_physical_lines e <? new); lia.
      * rewrite chain_end_middle. unfold entry_end. simpl.
        rewrite chain_end_renumber.
        destruct (nb_physical_lines e <? new); lia.
    + intros Hc. rewrite ?Hidx in Hc.
      apply contiguous_contiguous_from in Hc as [row Hc].
      apply (contiguous_from_contiguous row).
      apply contiguous_from_middle in Hc as (H1 & H2 & H3).
      apply contiguous_from_middle. repeat split; [done|done|].
      apply renumber_contiguous.
Qed.

(** [line] keeps a session well formed and leaves [lines_counter] one
    above the rows of the entries; it keeps the entries contiguous when
    [lines_counter] was one above their rows before. *)
Lemma line_in_keeps_contiguous_when_tight (key : nat) (t : string)
    (s : LinesSession) nb :
  session_ok s →
  nb_physical_lines_of (available_width s) (len t) = inr nb →
  ∃ s' o,
    line_in key (inr t) s = (inr tt, s', o) ∧
    session_ok s' ∧
    available_width s' = available_width s ∧
    chain_end (lines_counter s' - 1) (lines_index s') = lines_counter s' - 1 ∧
    (contiguous (lines_index s) →
     chain_end (lines_counter s - 1) (lines_index s) = lines_counter s - 1 →
     contiguous (lines_index s')).
Proof.
  intros (Hok & Hcl & Hend) Hh.
  destruct (nb_physical_lines_of_ge_1 _ _ _ Hh) as [Hnb Hw].
  destruct (line_in_run key t s nb Hh) as (o & H & _).
  eexists _, o. split; [exact H|]. simpl.
  assert (Hce : ∀ a, chain_end a
            (lines_index s ++ [mkEntry key t (lines_counter s - 1) nb])
          = lines_counter s + nb - 1).
  { intros a. rewrite chain_end_middle. unfold chain_end, entry_end. simpl. lia. }
  split; [|split; [done|split]].
  - split; [|split]; simpl.
    + apply Forall_app. split; [done|]. by repeat constructor.
    + lia.
    + rewrite Hce. lia.
  - rewrite Hce. lia.
  - intros Hc Htight.
    destruct (lines_index s) as [|e0 l0] eqn:E.
    { by apply (contiguous_from_contiguous (lines_counter s - 1)). }
    apply contiguous_contiguous_from in Hc as [row Hc].
    apply (contiguous_from_contiguous row).
    apply contiguous_from_middle. split; [done|]. split; [|done]. simpl.
    pose proof (chain_end_contiguous row _ Hc) as Hrow.
    rewrite (chain_end_fallback row (lines_counter s - 1)) in Hrow by done.
    simpl in Hrow. lia.
Qed.

Lemma init_session_ok (width : Z) : session_ok (LinesSession_init width).
Proof.
  split; [constructor|]. split; [simpl; lia|unfold chain_end; simpl; lia].
Qed.

Lemma init_contiguous (width : Z) :
  contiguous (lines_index (LinesSession_init width)).
Proof. by intros []. Qed.

(** In a well-formed session whose entries are contiguous, an update
    that changes the height of a line by [delta] moves every entry after
    it by [delta] rows. When the line grows, [lines_counter] grows by
    [delta + 1]; when it shrinks, [lines_counter] ends one above the
    rows of the entries, with the cursor on the last row, where [end]
    leaves it. *)
Lemma print_line_in_shifts_following (key : nat) (t : string)
    (s : LinesSession) pre e post new :
  session_ok s →
  contiguous (lines_index s) →
  lookup_entry key (lines_index s) = Some (length pre, e) →
  lines_index s = pre ++ e :: post →
  nb_physical_lines_of (available_width s) (len t) = inr new →
  new ≠ nb_physical_lines e →
  let delta := new - nb_physical_lines e in
  ∃ s' o,
    print_line_in key (inr t) s = (inr tt, s', o) ∧
    lines_index s'
      = pre ++ set_nb_physical_lines new (set_text t e)
            :: map (shift_row delta) post ∧
    (0 < delta → lines_counter s' = lines_counter s + delta + 1) ∧
    (delta < 0 →
       lines_counter s' <= lines_counter s + delta ∧
       lines_counter s' = chain_end 0 (lines_index s') + 1 ∧
       current_line s' = lines_counter s' - 1 ∧
       world_after end_ s' = s').
Proof.
  intros (Hok & Hcl & Hend) Hc Hlook Hidx Hh Hne delta.
  rewrite Hidx in Hok, Hend, Hc.
  apply Forall_app in Hok as [Hpre Hok].
  apply Forall_cons in Hok as [He Hpost].
  apply contiguous_contiguous_from in Hc as [row Hc].
  apply contiguous_from_middle in Hc as (_ & _ & Hc).
  rewrite chain_end_middle, (chain_end_contiguous _ _ Hc) in Hend.
  unfold entry_end in Hend, Hc.
  pose proof (total_height_nonneg _ _ Hpost) as Htot.
  destruct (print_line_in_resize key t s pre e post new Hlook Hidx Hh Hne Hpost)
    as (o & H & _).
  eexists _, o. split; [exact H|]. simpl.
  assert (Hshift : renumber (line_number e + new) post
                   = map (shift_row delta) post).
  { rewrite <- (renumber_shift _ _ _ Hc). f_equal. subst delta. lia. }
  split; [by rewrite Hshift|]. split.
  - intros Hd. destruct (Z.ltb_spec (nb_physical_lines e) new); lia.
  - intros Hd. destruct (Z.ltb_spec (nb_physical_lines e) new); [lia|].
    split; [lia|]. split; [|split; [lia|]].
    + rewrite chain_end_middle. unfold entry_end. simpl.
      rewrite chain_end_renumber. lia.
    + unfold world_after, end_. rewrite bind_gets. simpl.
      unfold _set_cursor_to_line_number. rewrite bind_gets. simpl.
      replace (line_number e + new + total_height post + 1 - 1
               - (line_number e + new + total_height post)) with 0 by lia.
      simpl. unfold set_current_line. simpl. f_equal. lia.
Qed.

(** ** Rows after a line has grown *)

(** C1, on a terminal of width 80: a line "a", updated to 200 characters
    (three rows), then a second line "b". [_extend(2)] printed three
    empty lines for the two rows the line grew by, so [lines_counter] is
    5 after the update and "b" is put on row 4: the first entry has the
    rows 0 to 2, row 3 belongs to no entry, and the entries are not
    contiguous. [lines_counter] stays above the rows of the entries. *)
Theorem line_after_growing_update_leaves_a_gap :
  let calls := [call (line named_format "a" ∅);
                call (Line_update named_format 0
                        (Some (repeat_char "x" 200)) ∅);
                call (line named_format "b" ∅)] in
  (run_all calls (new_world 80)).1.1 = inr tt ∧
  let s := session (world_after (run_all calls) (new_world 80)) in
  rows_and_heights s = [(0, 3); (4, 1)] ∧
  lines_counter s = 6 ∧
  ¬ contiguous (lines_index s).
Proof.
  intros calls. split; [vm_compute; reflexivity|]. intros s.
  assert (Hrows : rows_and_heights s = [(0, 3); (4, 1)])
    by (vm_compute; reflexivity).
  split; [exact Hrows|]. split; [vm_compute; reflexivity|].
  intros Hc. unfold rows_and_heights in Hrows.
  destruct (lines_index s) as [|e1 [|e2 [|e3 l]]]; try discriminate.
  specialize (Hc 0%nat e1 e2 eq_refl eq_refl).
  injection Hrows as H1 H2 H3 H4. lia.
Qed.

(** C3, in the session above: the first line grows again, from three
    rows to four; the second line was on row 4 and stays on row 4. *)
Theorem growing_update_after_gap_does_not_shift :
  let calls := [call (line named_format "a" ∅);
                call (Line_update named_format 0
                        (Some (repeat_char "x" 200)) ∅);
                call (line named_format "b" ∅)] in
  let w := world_after (run_all calls) (new_world 80) in
  let w' := world_after (Line_update named_format 0
                           (Some (repeat_char "x" 300)) ∅) w in
  reachable named_format 80 w ∧
  rows_and_heights (session w) = [(0, 3); (4, 1)] ∧
  rows_and_heights (session w') = [(0, 4); (4, 1)] ∧
  lines_counter (session w) = 6 ∧ lines_counter (session w') = 8.
Proof.
  intros calls w w'. split; [|vm_compute; tauto].
  unfold reachable.
  eapply rtc_l; [apply (step_line named_format "a" ∅)|].
  eapply rtc_l;
    [apply (step_update named_format 0 (Some (repeat_char "x" 200)) ∅)|].
  eapply rtc_l; [apply (step_line named_format "b" ∅)|].
  assert (Hw : w = world_after (line named_format "b" ∅)
                 (world_after (Line_update named_format 0
                                 (Some (repeat_char "x" 200)) ∅)
                    (world_after (line named_format "a" ∅) (new_world 80))))
    by (vm_compute; reflexivity).
  rewrite Hw. apply rtc_refl.
Qed.

(** ** Sessions a program can reach *)

Lemma print_line_in_keeps_ok (key : nat) (rendered : exn + string)
    (s : LinesSession) :
  available_width s ≠ 0 → session_ok s →
  session_ok (world_after (print_line_in key rendered) s) ∧
  available_width (world_after (print_line_in key rendered) s)
    = available_width s.
Proof.
  intros Hw Hok. unfold world_after.
  destruct (lookup_entry key (lines_index s)) as [[pos e]|] eqn:Hlook.
  - destruct rendered as [err|t].
    + unfold print_line_in. rewrite bind_gets, Hlook. done.
    + destruct (print_line_in_keeps_contiguous key t s pos e _ Hok Hlook
                  (nb_physical_lines_of_nonzero _ (len t) Hw))
        as (s' & o & H & Hok' & Hw' & _).
      rewrite H. done.
  - unfold print_line_in. rewrite bind_gets, Hlook. done.
Qed.

Lemma line_in_keeps_ok (key : nat) (rendered : exn + string)
    (s : LinesSession) :
  available_width s ≠ 0 → session_ok s →
  session_ok (world_after (line_in key rendered) s) ∧
  available_width (world_after (line_in key rendered) s) = available_width s.
Proof.
  intros Hw Hok. unfold world_after.
  destruct rendered as [err|t]; [done|].
  destruct (line_in_keeps_contiguous_when_tight key t s _ Hok
              (nb_physical_lines_of_nonzero _ (len t) Hw))
    as (s' & o & H & Hok' & Hw' & _).
  rewrite H. done.
Qed.

Lemma end_keeps_ok (s : LinesSession) :
  session_ok s →
  session_ok (world_after end_ s) ∧
  available_width (world_after end_ s) = available_width s.
Proof.
  intros (Hok & Hcl & Hend). unfold world_after, end_.
  rewrite bind_gets.
  destruct (set_cursor_run (lines_counter s - 1) s) as (o & H & _).
  rewrite H. simpl. repeat split; simpl; [done|lia|done].
Qed.

Section Reachable.

Context {value : Type}.
Variable str_format : string → gmap string value → exn + string.

Lemma in_session_after {A} (m : M LinesSession A) (w : world value) :
  session (world_after (in_session m) w) = world_after m (session w).
Proof.
  unfold world_after, in_session. by destruct (m (session w)) as [[??]?].
Qed.

Lemma session_after_print_line (key : nat) (w : world value) :
  session (world_after (print_line str_format key) w) = session w
  ∨ ∃ rendered,
      session (world_after (print_line str_format key) w)
      = world_after (print_line_in key rendered) (session w).
Proof.
  unfold world_after at 1 2, print_line. rewrite bind_gets.
  destruct (handles w !! key) as [l|]; [|by left].
  right. exists (Line_text str_format l). apply in_session_after.
Qed.

Lemma step_keeps_ok (w w' : world value) :
  step str_format w w' →
  available_width (session w) ≠ 0 → session_ok (session w) →
  session_ok (session w') ∧
  available_width (session w') = available_width (session w).
Proof.
  intros Hstep Hw Hok. destruct Hstep as [tpl kw w|key tpl kw w|w].
  - destruct (kw !! "session") as [v|] eqn:Hs;
      [by rewrite (line_not_made str_format tpl kw w v Hs)|].
    rewrite (line_made str_format tpl kw w Hs), bind_modify.
    set (w1 := set_handles _ w).
    set (m := line_in _ _).
    pose proof (line_in_keeps_ok (length (handles w))
                  (Line_text str_format (mkLine tpl kw)) (session w) Hw Hok)
      as Hline.
    unfold world_after in Hline. fold m in Hline.
    unfold bind, in_session. simpl.
    destruct (m (session w)) as [[[err|[]] s'] o]; simpl in *; exact Hline.
  - unfold Line_update. rewrite bind_gets.
    destruct (handles w !! key) as [l|]; [|done].
    rewrite bind_modify. set (w1 := set_handles _ w).
    fold (world_after (print_line str_format key) w1).
    destruct (session_after_print_line key w1) as [->|[rendered ->]];
      [done|].
    by apply print_line_in_keeps_ok.
  - fold (world_after (in_session end_) w).
    rewrite (in_session_after (A:=unit)). by apply end_keeps_ok.
Qed.

(** Whatever [line], [update] and [end] calls a program makes on a
    session of a width other than 0, the session stays well formed: in
    particular the cursor is above the last row, which is what
    [_truncate] relies on. *)
Lemma reachable_session_ok (width : Z) (w : world value) :
  width ≠ 0 → reachable str_format width w →
  session_ok (session w) ∧ available_width (session w) = width.
Proof.
  intros Hw Hreach. unfold reachable in Hreach.
  revert w Hreach. apply rtc_ind_r.
  - split; [apply init_session_ok|done].
  - intros w0 w1 _ Hstep [Hok0 Hw0].
    destruct (step_keeps_ok _ _ Hstep) as [Hok1 Hw1]; [congruence|done|].
    split; [done|congruence].
Qed.

End Reachable.

(** * Further properties *)

(** ** Composing properties of runs *)

Section Always.

Context {St : Type}.
Variable Q : St → list event → St → Prop.
Hypothesis Q_refl : ∀ s, Q s [] s.
Hypothesis Q_trans :
  ∀ s1 o1 s2 o2 s3, Q s1 o1 s2 → Q s2 o2 s3 → Q s1 (o1 ++ o2) s3.

Lemma holds_ret {A} (a : A) (s : St) : holds Q (ret a) s.
Proof. apply Q_refl. Qed.

Lemma holds_raise {A} (e : exn) (s : St) : holds Q (raise (A:=A) e) s.
Proof. apply Q_refl. Qed.

Lemma holds_of_result {A} (r : exn + A) (s : St) : holds Q (of_result r) s.
Proof. apply Q_refl. Qed.

Lemma holds_gets {A B} (f : St → A) (k : A → M St B) (s : St) :
  holds Q (k (f s)) s → holds Q (bind (gets f) k) s.
Proof. unfold holds, output_of, world_after. by rewrite bind_gets. Qed.

Lemma holds_bind {A B} (m : M St A) (k : A → M St B) (s : St) :
  holds Q m s →
  (∀ a s1 o1, m s = (inr a, s1, o1) → holds Q (k a) s1) →
  holds Q (bind m k) s.
Proof.
  unfold holds, output_of, world_after, bind.
  destruct (m s) as [[[e|a] s1] o1] eqn:Hm; simpl; [done|].
  intros H1 H2. specialize (H2 a s1 o1 eq_refl).
  destruct (k a s1) as [[r s2] o2]. simpl in *. by eapply Q_trans.
Qed.

Lemma holds_when (b : bool) (m : M St unit) (s : St) :
  (b = true → holds Q m s) → holds Q (when b m) s.
Proof. destruct b; simpl; [auto|intros _; apply Q_refl]. Qed.

Lemma holds_for_each {A} (l : list A) (body : A → M St unit) :
  (∀ x, x ∈ l → ∀ s, holds Q (body x) s) →
  ∀ s, holds Q (for_each l body) s.
Proof.
  induction l as [|x l IH]; intros Hbody s; simpl; [apply Q_refl|].
  apply holds_bind.
  - apply Hbody. by left.
  - intros _ s1 _ _. apply IH. intros y Hy. apply Hbody. by right.
Qed.

End Always.

Lemma holds_weaken {St A} (Q Q' : St → list event → St → Prop)
    (m : M St A) (s : St) :
  (∀ o s', Q s o s' → Q' s o s') → holds Q m s → holds Q' m s.
Proof. unfold holds. auto. Qed.

(** ** The cursor of the terminal and [current_line] *)

Lemma sum_jumps_app (o1 o2 : list event) :
  sum_jumps (o1 ++ o2) = sum_jumps o1 + sum_jumps o2.
Proof.
  induction o1 as [|[r []] o1 IH]; simpl; rewrite ?IH; unfold sum_jumps; lia.
Qed.

Lemma text_rows_app (width : Z) (o1 o2 : list event) :
  text_rows width (o1 ++ o2) = text_rows width o1 + text_rows width o2.
Proof.
  unfold text_rows. rewrite printed_texts_app.
  induction (printed_texts o1) as [|rt l IH]; simpl; [done|].
  destruct (nb_physical_lines_of width (len rt.2)); lia.
Qed.

Lemma tracked_refl (s : LinesSession) : tracked s [] s.
Proof. split; [unfold sum_jumps, text_rows; simpl; lia|done]. Qed.

Lemma tracked_trans s1 o1 s2 o2 s3 :
  tracked s1 o1 s2 → tracked s2 o2 s3 → tracked s1 (o1 ++ o2) s3.
Proof.
  intros [H1 W1] [H2 W2]. split; [|congruence].
  rewrite sum_jumps_app, text_rows_app. rewrite W1 in H2. lia.
Qed.

Lemma tracked_set_cursor (n : Z) (s : LinesSession) :
  holds tracked (_set_cursor_to_line_number n) s.
Proof.
  unfold holds, output_of, world_after, _set_cursor_to_line_number.
  rewrite bind_gets. unfold bind, print, modify.
  destruct (Z.eqb_spec (n - current_line s) 0) as [H0|H0];
    [|destruct (Z.ltb_spec 0 (n - current_line s))];
    (split; [|done]); unfold sum_jumps, text_rows; simpl; lia.
Qed.

Lemma tracked_print_erase (s : LinesSession) : holds tracked (print EraseLine) s.
Proof.
  unfold holds, output_of, world_after, print. simpl.
  split; [unfold sum_jumps, text_rows; simpl; lia|done].
Qed.

Lemma tracked_modify (f : LinesSession → LinesSession) (s : LinesSession) :
  current_line (f s) = current_line s →
  available_width (f s) = available_width s →
  holds tracked (modify f) s.
Proof.
  intros Hc Hw. unfold holds, output_of, world_after, modify. simpl.
  split; [|done]. unfold sum_jumps, text_rows. simpl. lia.
Qed.

Lemma tracked_print_at_line (t : string) (n : Z) (s : LinesSession) :
  holds tracked (_print_at_line t n) s.
Proof.
  unfold _print_at_line.
  apply (holds_bind _ tracked_trans).
  { unfold holds, output_of, world_after. rewrite compute_run.
    apply tracked_refl. }
  intros size s1 o1 Hc. rewrite compute_run in Hc.
  injection Hc as Hsize Hs1 _. subst s1.
  apply (holds_bind _ tracked_trans).
  { apply (holds_for_each _ tracked_refl tracked_trans). intros p _ s2.
    apply (holds_bind _ tracked_trans); [apply tracked_set_cursor|].
    intros _ s3 _ _. apply tracked_print_erase. }
  intros [] s2 o2 H2.
  pose proof (holds_for_each _ tracked_refl tracked_trans
                (range n (n + size))
                (λ position, _set_cursor_to_line_number position ;;
                             print EraseLine)) as Hloop.
  specialize (Hloop (λ p _ s2,
    holds_bind _ tracked_trans _ _ s2 (tracked_set_cursor p s2)
      (λ _ s3 _ _, tracked_print_erase s3)) s).
  unfold holds, output_of, world_after in Hloop. rewrite H2 in Hloop.
  destruct Hloop as [_ Hw2]. simpl in Hw2.
  apply (holds_bind _ tracked_trans); [apply tracked_set_cursor|].
  intros [] s3 o3 H3.
  destruct (set_cursor_run n s2) as (o3' & H3' & _).
  rewrite H3' in H3. injection H3 as Hs3 _. subst s3.
  unfold holds, output_of, world_after, bind, print, modify, gets. simpl.
  split; [|done].
  unfold sum_jumps, text_rows. simpl. rewrite Hw2, Hsize. lia.
Qed.

Lemma tracked_blank_loop (l : list Z) (s : LinesSession) :
  holds tracked (for_each l (λ n, _print_at_line "" n)) s.
Proof.
  apply (holds_for_each _ tracked_refl tracked_trans).
  intros n _ s1. apply tracked_print_at_line.
Qed.

Lemma tracked_extend (size : Z) (s : LinesSession) :
  holds tracked (_extend size) s.
Proof. unfold _extend. apply holds_gets, tracked_blank_loop. Qed.

Lemma tracked_truncate (s : LinesSession) : holds tracked _truncate s.
Proof.
  unfold _truncate. do 2 apply holds_gets.
  apply (holds_bind _ tracked_trans); [apply tracked_blank_loop|].
  intros _ s1 _ _.
  apply (holds_bind _ tracked_trans); [apply tracked_set_cursor|].
  intros _ s2 _ _. apply holds_gets. by apply tracked_modify.
Qed.

Lemma tracked_end (s : LinesSession) : holds tracked end_ s.
Proof. unfold end_. apply holds_gets, tracked_set_cursor. Qed.

Lemma tracked_shift_following (chain : list _LineEntry) (pos : nat) (cur : Z)
    (s : LinesSession) :
  holds tracked (shift_following chain pos cur) s.
Proof.
  revert pos cur s. induction chain as [|e rest IH]; intros pos cur s; simpl.
  - apply tracked_refl.
  - apply (holds_bind _ tracked_trans); [by apply tracked_modify|].
    intros _ s1 _ _.
    apply (holds_bind _ tracked_trans); [apply tracked_print_at_line|].
    intros _ s2 _ _. apply IH.
Qed.

Lemma tracked_compute {B} (t : string) (k : Z → M LinesSession B)
    (s : LinesSession) :
  (∀ h, nb_physical_lines_of (available_width s) (len t) = inr h →
        holds tracked (k h) s) →
  holds tracked (bind (_compute_nb_physical_lines t) k) s.
Proof.
  intros Hk. apply (holds_bind _ tracked_trans).
  - unfold holds, output_of, world_after. rewrite compute_run.
    apply tracked_refl.
  - intros h s1 o1 Hc. rewrite compute_run in Hc.
    injection Hc as Hh Hs _. subst s1. by apply Hk.
Qed.

Lemma tracked_print_line_in (key : nat) (rendered : exn + string)
    (s : LinesSession) :
  holds tracked (print_line_in key rendered) s.
Proof.
  unfold print_line_in. apply holds_gets.
  destruct (lookup_entry key (lines_index s)) as [[pos e]|];
    [|apply tracked_refl].
  apply (holds_bind _ tracked_trans); [apply (holds_of_result _ tracked_refl)|].
  intros t s1 _ _.
  apply (holds_bind _ tracked_trans); [by apply tracked_modify|].
  intros _ s2 _ _. apply tracked_compute. intros new _.
  apply (holds_bind _ tracked_trans).
  { apply (holds_when _ tracked_refl). intros _. apply tracked_extend. }
  intros _ s3 _ _.
  apply (holds_bind _ tracked_trans); [apply tracked_print_at_line|].
  intros _ s4 _ _.
  apply (holds_bind _ tracked_trans).
  { apply (holds_when _ tracked_refl). intros _.
    apply (holds_bind _ tracked_trans); [by apply tracked_modify|].
    intros _ s5 _ _. apply tracked_shift_following. }
  intros _ s5 _ _.
  apply (holds_when _ tracked_refl). intros _. apply tracked_truncate.
Qed.

Lemma tracked_line_in (key : nat) (rendered : exn + string)
    (s : LinesSession) :
  holds tracked (line_in key rendered) s.
Proof.
  unfold line_in.
  apply (holds_bind _ tracked_trans); [apply (holds_of_result _ tracked_refl)|].
  intros t s1 _ _. apply tracked_compute. intros nb _. apply holds_gets.
  apply (holds_bind _ tracked_trans); [by apply tracked_modify|].
  intros _ s2 _ _.
  apply (holds_bind _ tracked_trans); [apply tracked_extend|].
  intros _ s3 _ _. apply tracked_print_at_line.
Qed.

Lemma text_rows_ink (width : Z) (o : list event) :
  text_rows width (ink o) = text_rows width o.
Proof. unfold text_rows. by rewrite printed_texts_ink. Qed.

Lemma text_rows_blank_rows (width : Z) (rows : list Z) :
  width ≠ 0 → text_rows width (blank_rows rows) = Z.of_nat (length rows).
Proof.
  intros Hw. unfold text_rows. rewrite printed_texts_blank_rows.
  induction rows as [|r rows IH]; [done|]. cbn [map foldr length snd].
  change (len "") with 0. rewrite nb_physical_lines_of_empty by done. lia.
Qed.

(** X1. [_print_at_line(text, n)], for a text of height [h]: the
    escape codes move the cursor by [n - current_line] rows in all, the
    rows [n] to [n + h - 1] are erased, in this order, before the text is
    written at row [n], the cursor is then taken to be on row [n + h],
    and [lines_counter] is raised to [n + h + 1] if it was below. The
    entries and the width are left alone. *)
Theorem print_at_line_effect (t : string) (n h : Z) (s : LinesSession) :
  nb_physical_lines_of (available_width s) (len t) = inr h →
  ∃ o,
    _print_at_line t n s
    = (inr tt,
       mkSession (Z.max (lines_counter s) (n + h + 1)) (lines_index s)
         (n + h) (available_width s), o) ∧
    ink o = erase_rows (range n (n + h)) ++ [(n, Text t)] ∧
    sum_jumps o = n - current_line s.
Proof.
  intros Hh. destruct (print_at_line_run t n h s Hh) as (o & H & Ho).
  exists o. split; [exact H|]. split; [exact Ho|].
  pose proof (tracked_print_at_line t n s) as [Ht _].
  unfold output_of, world_after in Ht. rewrite H in Ht. simpl in Ht.
  rewrite <- text_rows_ink, Ho in Ht. unfold text_rows in Ht.
  rewrite printed_texts_app, printed_texts_erase_rows in Ht.
  simpl in Ht. rewrite Hh in Ht. lia.
Qed.

(** The third row of the test [test_print_at_line]. *)
Lemma print_at_line_effect_witness :
  ∃ o,
    _print_at_line "hello world" 2 (mkSession 10 [] 7 80)
    = (inr tt, mkSession (Z.max 10 (2 + 1 + 1)) [] (2 + 1) 80, o) ∧
    ink o = erase_rows (range 2 (2 + 1)) ++ [(2, Text "hello world")] ∧
    sum_jumps o = 2 - 7.
Proof.
  apply (print_at_line_effect "hello world" 2 1 (mkSession 10 [] 7 80)).
  reflexivity.
Defined.

(** X2. [_extend(size)] for [size >= 0] on a terminal of a width other
    than 0: [size + 1] empty lines are printed, one at each of the rows
    [lines_counter - 1] to [lines_counter + size - 1], [lines_counter]
    grows by [size + 1], and the cursor ends on the row below the last
    one printed. *)
Theorem extend_prints_size_plus_one (size : Z) (s : LinesSession) :
  available_width s ≠ 0 → 0 <= size →
  ∃ o,
    _extend size s
    = (inr tt,
       mkSession (lines_counter s + size + 1) (lines_index s)
         (lines_counter s + size) (available_width s), o) ∧
    erased_rows o = range (lines_counter s - 1) (lines_counter s + size) ∧
    printed_texts o
      = map (λ r, (r, EmptyString))
          (range (lines_counter s - 1) (lines_counter s + size)) ∧
    Z.of_nat (length (printed_texts o)) = size + 1.
Proof.
  intros Hw Hsize. destruct (extend_run size s Hw Hsize) as (o & H & Ho).
  exists o. split; [exact H|].
  rewrite <- erased_rows_ink, <- printed_texts_ink, Ho,
    erased_rows_blank_rows, printed_texts_blank_rows.
  split; [done|]. split; [done|].
  rewrite length_map. unfold range. rewrite length_seqZ. lia.
Qed.

Lemma extend_prints_size_plus_one_witness :
  ∃ o,
    _extend 2 (mkSession 2 [] 1 80)
    = (inr tt, mkSession (2 + 2 + 1) [] (2 + 2) 80, o) ∧
    erased_rows o = range (2 - 1) (2 + 2) ∧
    printed_texts o = map (λ r, (r, EmptyString)) (range (2 - 1) (2 + 2)) ∧
    Z.of_nat (length (printed_texts o)) = 2 + 1.
Proof.
  apply (extend_prints_size_plus_one 2 (mkSession 2 [] 1 80)); simpl; lia.
Defined.

(** C5, as the code has it. [_truncate], run with the cursor below the
    row counter (as it is after every print), erases the rows from the
    cursor row to the row [lines_counter - 2], each once and from top to
    bottom, and prints an empty line on each of them; the last row
    [lines_counter - 1] is not erased. It brings the cursor back to the
    row it was on: [current_line] is what it was, and the rows the escape
    codes move the cursor of the terminal by, with the new lines of the
    empty lines, add up to 0. The number of erased rows is taken off
    [lines_counter]; the entries and the width are left alone. *)
Theorem truncate_erases_tail_and_restores_cursor (s : LinesSession) :
  available_width s ≠ 0 →
  current_line s < lines_counter s →
  ∃ s' o,
    _truncate s = (inr tt, s', o) ∧
    erased_rows o = range (current_line s) (lines_counter s - 1) ∧
    (∀ r, r ∈ erased_rows o ↔ current_line s <= r <= lines_counter s - 2) ∧
    printed_texts o = map (λ r, (r, EmptyString)) (erased_rows o) ∧
    sum_jumps o + Z.of_nat (length (printed_texts o)) = 0 ∧
    current_line s' = current_line s ∧
    lines_counter s' = lines_counter s - Z.of_nat (length (erased_rows o)) ∧
    lines_index s' = lines_index s ∧
    available_width s' = available_width s.
Proof.
  intros Hw Hcl.
  destruct (truncate_run s Hw Hcl) as (o & H & Ho).
  assert (He : erased_rows o = range (current_line s) (lines_counter s - 1)).
  { by rewrite <- erased_rows_ink, Ho, erased_rows_blank_rows. }
  assert (Hp : printed_texts o
               = map (λ r, (r, EmptyString)) (erased_rows o)).
  { by rewrite He, <- printed_texts_ink, Ho, printed_texts_blank_rows. }
  pose proof (tracked_truncate s) as [Ht _].
  unfold output_of, world_after in Ht. rewrite H in Ht. simpl in Ht.
  rewrite <- text_rows_ink, Ho, text_rows_blank_rows in Ht by done.
  eexists _, o. split; [exact H|]. split; [exact He|]. simpl.
  split. { intros r. rewrite He. unfold range. rewrite elem_of_seqZ. lia. }
  split; [exact Hp|].
  split. { rewrite Hp, He, length_map. lia. }
  split; [done|]. split; [|done].
  rewrite He. unfold range. rewrite length_seqZ. lia.
Qed.

(** The session of the test [test_truncate]. *)
Lemma truncate_erases_tail_and_restores_cursor_witness :
  ∃ s' o,
    _truncate (mkSession 10 [] 7 80) = (inr tt, s', o) ∧
    erased_rows o = [7; 8] ∧
    (∀ r, r ∈ erased_rows o ↔ 7 <= r <= 10 - 2) ∧
    printed_texts o = map (λ r, (r, EmptyString)) (erased_rows o) ∧
    sum_jumps o + Z.of_nat (length (printed_texts o)) = 0 ∧
    current_line s' = 7 ∧
    lines_counter s' = 10 - Z.of_nat (length (erased_rows o)) ∧
    lines_index s' = [] ∧
    available_width s' = 80.
Proof.
  apply (truncate_erases_tail_and_restores_cursor (mkSession 10 [] 7 80));
    simpl; lia.
Defined.

(** C5, as stated, fails on the last row. In the session of the test
    [test_truncate], with 10 rows and the cursor on row 7, [_truncate]
    erases the rows 7 and 8: the row 9, which is [lines_counter - 1], is
    not erased. *)
Lemma truncate_does_not_erase_last_row :
  let s := mkSession 10 [] 7 80 in
  let o := output_of _truncate s in
  erased_rows o = [7; 8] ∧
  ¬ (lines_counter s - 1 ∈ erased_rows o) ∧
  ¬ (∀ r, current_line s <= r <= lines_counter s - 1 → r ∈ erased_rows o).
Proof.
  intros s o.
  assert (He : erased_rows o = [7; 8]) by (vm_compute; reflexivity).
  split; [exact He|]. rewrite He. split.
  - intros H. apply elem_of_cons in H as [H|H]; [done|].
    apply list_elem_of_singleton in H. done.
  - intros H. specialize (H 9 ltac:(simpl; lia)).
    apply elem_of_cons in H as [H|H]; [done|].
    apply list_elem_of_singleton in H. done.
Qed.

(** X3. [_truncate] leaves the cursor of the terminal where it was: the
    rows its escape codes move the cursor by, and the new lines of the
    empty lines it prints, add up to 0 (the second check of the test
    [test_truncate], for every session with the cursor above the last
    row). *)
Theorem truncate_net_cursor_move_is_zero (s : LinesSession) :
  available_width s ≠ 0 →
  current_line s < lines_counter s →
  ∃ s' o,
    _truncate s = (inr tt, s', o) ∧
    Forall (λ rt, rt.2 = EmptyString) (printed_texts o) ∧
    sum_jumps o + Z.of_nat (length (printed_texts o)) = 0.
Proof.
  intros Hw Hcl. destruct (truncate_run s Hw Hcl) as (o & H & Ho).
  eexists _, o. split; [exact H|].
  pose proof (tracked_truncate s) as [Ht _].
  unfold output_of, world_after in Ht. rewrite H in Ht. simpl in Ht.
  rewrite <- text_rows_ink, Ho, text_rows_blank_rows in Ht by done.
  rewrite <- printed_texts_ink, Ho, printed_texts_blank_rows, length_map.
  split; [|lia].
  apply Forall_forall. intros rt Hrt.
  apply list_elem_of_fmap in Hrt as (r & -> & _). done.
Qed.

Lemma truncate_net_cursor_move_is_zero_witness :
  ∃ s' o,
    _truncate (mkSession 10 [] 7 80) = (inr tt, s', o) ∧
    Forall (λ rt, rt.2 = EmptyString) (printed_texts o) ∧
    sum_jumps o + Z.of_nat (length (printed_texts o)) = 0.
Proof.
  apply (truncate_net_cursor_move_is_zero (mkSession 10 [] 7 80));
    simpl; lia.
Defined.

(** X4. [end] (and so [__exit__]) prints one escape code, which moves
    the cursor by [lines_counter - 1 - current_line] rows, puts
    [current_line] at [lines_counter - 1] and changes nothing else; a
    second [end] only sends the cursor to the first column. It never
    raises. *)
Theorem end_puts_cursor_on_last_row (s : LinesSession) :
  ∃ code,
    end_ s
    = (inr tt, set_current_line (lines_counter s - 1) s,
       [(current_line s, code)]) ∧
    sum_jumps [(current_line s, code)]
      = lines_counter s - 1 - current_line s ∧
    end_ (set_current_line (lines_counter s - 1) s)
    = (inr tt, set_current_line (lines_counter s - 1) s,
       [(lines_counter s - 1, CursorCol0)]).
Proof.
  unfold end_. rewrite !bind_gets. unfold _set_cursor_to_line_number.
  rewrite !bind_gets. simpl. rewrite Z.sub_diag. simpl.
  unfold bind, print, modify, sum_jumps. simpl.
  destruct (Z.eqb_spec (lines_counter s - 1 - current_line s) 0) as [H0|H0];
    [|destruct (Z.ltb_spec 0 (lines_counter s - 1 - current_line s))];
    eexists; (split; [reflexivity|]); simpl; (split; [lia|done]).
Qed.

(** ** The calls of the public interface *)

Lemma lookup_entry_snoc (key : nat) (l : list _LineEntry) (e : _LineEntry) :
  line_obj e = key → lookup_entry key (l ++ [e]) = Some (length l, e).
Proof.
  intros He. induction l as [|e0 l IH]; simpl.
  - by rewrite decide_True.
  - by rewrite IH.
Qed.

Section Public.

Context {value : Type}.
Variable str_format : string → gmap string value → exn + string.

Lemma in_world_refl (Q : LinesSession → list event → LinesSession → Prop) :
  (∀ s, Q s [] s) → ∀ w : world value, in_world Q w [] w.
Proof. intros H w. apply H. Qed.

Lemma in_world_trans (Q : LinesSession → list event → LinesSession → Prop) :
  (∀ s1 o1 s2 o2 s3, Q s1 o1 s2 → Q s2 o2 s3 → Q s1 (o1 ++ o2) s3) →
  ∀ (w1 : world value) o1 w2 o2 w3,
    in_world Q w1 o1 w2 → in_world Q w2 o2 w3 → in_world Q w1 (o1 ++ o2) w3.
Proof. intros H w1 o1 w2 o2 w3. apply H. Qed.

Lemma holds_in_session {A}
    (Q : LinesSession → list event → LinesSession → Prop)
    (m : M LinesSession A) (w : world value) :
  holds Q m (session w) → holds (in_world Q) (in_session m) w.
Proof.
  unfold holds, in_world, output_of, world_after, in_session.
  by destruct (m (session w)) as [[??]?].
Qed.

Lemma holds_set_handles {B}
    (Q : LinesSession → list event → LinesSession → Prop)
    (h : list (Line value)) (k : unit → M (world value) B) (w : world value) :
  holds (in_world Q) (k tt) (set_handles h w) →
  holds (in_world Q) (bind (modify (set_handles h)) k) w.
Proof. unfold holds, output_of, world_after. by rewrite bind_modify. Qed.

(** Properties of the session that hold of the methods of the session
    hold of the calls of the interface. *)
Lemma holds_print_line
    (Q : LinesSession → list event → LinesSession → Prop) (key : nat)
    (w : world value) :
  (∀ s, Q s [] s) →
  (∀ rendered, holds Q (print_line_in key rendered) (session w)) →
  holds (in_world Q) (print_line str_format key) w.
Proof.
  intros Hrefl H. unfold print_line. apply holds_gets.
  destruct (handles w !! key) as [l|]; [|by apply in_world_refl].
  apply holds_in_session, H.
Qed.

Lemma holds_Line_update
    (Q : LinesSession → list event → LinesSession → Prop) (key : nat)
    (tpl : option string) (kw : gmap string value) (w : world value) :
  (∀ s, Q s [] s) →
  (∀ rendered, holds Q (print_line_in key rendered) (session w)) →
  holds (in_world Q) (Line_update str_format key tpl kw) w.
Proof.
  intros Hrefl H. unfold Line_update. apply holds_gets.
  destruct (handles w !! key) as [l|]; [|by apply in_world_refl].
  apply holds_set_handles. by apply holds_print_line.
Qed.

Lemma holds_line
    (Q : LinesSession → list event → LinesSession → Prop)
    (tpl : string) (kw : gmap string value) (w : world value) :
  (∀ s, Q s [] s) →
  (∀ s1 o1 s2 o2 s3, Q s1 o1 s2 → Q s2 o2 s3 → Q s1 (o1 ++ o2) s3) →
  (∀ key rendered, holds Q (line_in key rendered) (session w)) →
  holds (in_world Q) (line str_format tpl kw) w.
Proof.
  intros Hrefl Htrans H.
  destruct (kw !! "session") as [v|] eqn:Hs.
  { unfold holds, output_of, world_after.
    rewrite (line_not_made str_format tpl kw w v Hs). by apply in_world_refl. }
  unfold holds, output_of, world_after.
  rewrite (line_made str_format tpl kw w Hs).
  apply holds_set_handles.
  apply (holds_bind _ (in_world_trans _ Htrans)).
  - apply holds_in_session, H.
  - intros _ w1 _ _. by apply in_world_refl.
Qed.

(** X5. Whatever a call of the interface does, returning or raising, on
    a terminal of any width: the rows its escape codes move the cursor
    by, and the rows its texts take, add up to the change of
    [current_line]; and the width of the session is kept. *)
Theorem calls_move_cursor_as_tracked (w : world value) (tpl : string)
    (key : nat) (otpl : option string) (kw : gmap string value) :
  holds (in_world tracked) (line str_format tpl kw) w ∧
  holds (in_world tracked) (Line_update str_format key otpl kw) w ∧
  holds (in_world tracked) (in_session end_) w.
Proof.
  split; [|split].
  - apply holds_line; [apply tracked_refl|apply tracked_trans|].
    intros. apply tracked_line_in.
  - apply holds_Line_update; [apply tracked_refl|].
    intros. apply tracked_print_line_in.
  - apply holds_in_session, tracked_end.
Qed.


(** X6. [line], when no keyword argument is named [session], the text
    renders as [t] and [t] has height [h]:
    the id of the new Line object is returned, the object is kept with
    its template and keyword arguments, an entry with this id, the text
    [t], the row [lines_counter - 1] and the height [h] is put at the end
    of the chain, where the id finds it; [lines_counter] grows by [h] and
    the cursor ends on the last row. What is printed: [h] empty lines
    from row [lines_counter - 1] on, then the rows of the entry are
    erased and the text is written at its row. *)
Theorem line_registers_entry (w : world value) (tpl : string)
    (kw : gmap string value) (t : string) (h : Z) :
  kw !! "session" = None →
  Line_text str_format (mkLine tpl kw) = inr t →
  nb_physical_lines_of (available_width (session w)) (len t) = inr h →
  let key := length (handles w) in
  let s := session w in
  let entry := mkEntry key t (lines_counter s - 1) h in
  ∃ o,
    line str_format tpl kw w
    = (inr key,
       mkWorld (handles w ++ [mkLine tpl kw])
         (mkSession (lines_counter s + h) (lines_index s ++ [entry])
            (lines_counter s - 1 + h) (available_width s)), o) ∧
    ink o
      = blank_rows (range (lines_counter s - 1) (lines_counter s + (h - 1)))
        ++ erase_rows (range (lines_counter s - 1) (lines_counter s - 1 + h))
        ++ [(lines_counter s - 1, Text t)] ∧
    lookup_entry key (lines_index s ++ [entry])
      = Some (length (lines_index s), entry) ∧
    (handles w ++ [mkLine tpl kw]) !! key = Some (mkLine tpl kw).
Proof.
  intros Hs Ht Hh key s entry.
  destruct (line_in_run key t s h Hh) as (o & H & Ho).
  exists (o ++ []). split; [|split; [by rewrite app_nil_r|split]].
  - rewrite (line_made str_format tpl kw w Hs), bind_modify. fold key.
    rewrite Ht.
    eapply bind_run; [|reflexivity].
    apply in_session_run. exact H.
  - by apply lookup_entry_snoc.
  - by rewrite lookup_app_r, Nat.sub_diag.
Qed.

(** X7. [line] on a session of width 0, when no keyword argument is
    named [session], raises [ZeroDivisionError] once the text is
    rendered: the Line object is built, but no entry is registered, the
    session is as it was and nothing is printed. *)
Theorem line_raises_on_width_zero (w : world value) (tpl : string)
    (kw : gmap string value) (t : string) :
  kw !! "session" = None →
  available_width (session w) = 0 →
  Line_text str_format (mkLine tpl kw) = inr t →
  line str_format tpl kw w
  = (inl ZeroDivisionError,
     mkWorld (handles w ++ [mkLine tpl kw]) (session w), []).
Proof.
  intros Hs Hw Ht.
  rewrite (line_made str_format tpl kw w Hs), bind_modify, Ht.
  unfold bind, in_session, line_in. simpl.
  unfold bind, of_result, _compute_nb_physical_lines, gets. simpl.
  rewrite Hw. simpl. by destruct w.
Qed.

Lemma Line_update_run (key : nat) (tpl : option string)
    (kw : gmap string value) (w : world value) (l : Line value) :
  handles w !! key = Some l →
  Line_update str_format key tpl kw w
  = in_session
      (print_line_in key (Line_text str_format (updated_handle tpl kw l)))
      (set_handles (<[key := updated_handle tpl kw l]> (handles w)) w).
Proof.
  intros Hl. unfold Line_update. rewrite bind_gets, Hl, bind_modify.
  replace (mkLine _ _) with (updated_handle tpl kw l) by (by destruct tpl).
  unfold print_line. rewrite bind_gets. simpl.
  rewrite list_lookup_insert_eq by (by eapply lookup_lt_Some). done.
Qed.

(** X8. [update] of a Line object the session has no entry for (one not
    made by [line]) raises [KeyError] with the session as it was and
    nothing printed; the object has its new template and keyword
    arguments all the same. *)
Theorem update_of_unregistered_line_raises (w : world value) (key : nat)
    (tpl : option string) (kw : gmap string value) (l : Line value) :
  handles w !! key = Some l →
  lookup_entry key (lines_index (session w)) = None →
  Line_update str_format key tpl kw w
  = (inl (KeyError_id key),
     mkWorld (<[key := updated_handle tpl kw l]> (handles w)) (session w),
     []).
Proof.
  intros Hl Hlook. rewrite (Line_update_run key tpl kw w l Hl).
  unfold in_session, print_line_in. simpl. rewrite bind_gets, Hlook.
  by destruct w.
Qed.

(** X9. [update] of a registered line whose new text fails to render
    raises the error of the rendering with the session as it was, the
    text of the entry included, and nothing printed; the Line object has
    its new template and keyword arguments all the same, they are not
    rolled back. *)
Theorem update_render_error_keeps_session (w : world value) (key : nat)
    (tpl : option string) (kw : gmap string value) (l : Line value)
    pos e err :
  handles w !! key = Some l →
  lookup_entry key (lines_index (session w)) = Some (pos, e) →
  Line_text str_format (updated_handle tpl kw l) = inl err →
  Line_update str_format key tpl kw w
  = (inl err,
     mkWorld (<[key := updated_handle tpl kw l]> (handles w)) (session w),
     []).
Proof.
  intros Hl Hlook Herr. rewrite (Line_update_run key tpl kw w l Hl), Herr.
  unfold in_session, print_line_in. simpl. rewrite bind_gets, Hlook.
  by destruct w.
Qed.

(** X10. [update] without a template keeps the template and merges the
    keyword arguments of the call into those the Line object holds: a
    name given in the call has the new value, any other name keeps the
    value it had. This is so whether printing returns or raises. *)
Theorem update_without_template_merges_params (w : world value) (key : nat)
    (kw : gmap string value) (l : Line value) :
  handles w !! key = Some l →
  ∃ l',
    handles (world_after (Line_update str_format key None kw) w) !! key
      = Some l' ∧
    template l' = template l ∧
    ∀ name,
      kwargs l' !! name
      = match kw !! name with
        | Some v => Some v
        | None => kwargs l !! name
        end.
Proof.
  intros Hl. exists (updated_handle None kw l).
  unfold world_after. rewrite (Line_update_run key None kw w l Hl).
  unfold in_session.
  destruct (print_line_in _ _ _) as [[r s'] o]. simpl.
  split; [by rewrite list_lookup_insert_eq by (by eapply lookup_lt_Some)|].
  split; [done|]. intros name. rewrite lookup_union.
  by destruct (kw !! name), (kwargs l !! name).
Qed.

(** X11. The calls of the interface and the Line objects, whether the
    call returns or raises: [line] adds its new object after the others
    and leaves them alone, and adds none when a keyword argument is
    named [session], since no object is made then; [update] changes the
    object it is called on and no other; [end] changes none. *)
Theorem calls_touch_only_their_handle (w : world value) (tpl : string)
    (key : nat) (otpl : option string) (kw : gmap string value) :
  handles (world_after (line str_format tpl kw) w)
    = match kw !! "session" with
      | None => handles w ++ [mkLine tpl kw]
      | Some _ => handles w
      end ∧
  handles (world_after (Line_update str_format key otpl kw) w)
    = match handles w !! key with
      | Some l => <[key := updated_handle otpl kw l]> (handles w)
      | None => handles w
      end ∧
  handles (world_after (in_session end_) w) = handles w.
Proof.
  split; [|split].
  - unfold world_after. destruct (kw !! "session") as [v|] eqn:Hs;
      [by rewrite (line_not_made str_format tpl kw w v Hs)|].
    rewrite (line_made str_format tpl kw w Hs), bind_modify.
    unfold bind, in_session. simpl.
    by destruct (line_in _ _ _) as [[[?|?] ?] ?].
  - destruct (handles w !! key) as [l|] eqn:Hl.
    + unfold world_after. rewrite (Line_update_run key otpl kw w l Hl).
      unfold in_session. by destruct (print_line_in _ _ _) as [[??]?].
    + unfold world_after, Line_update. by rewrite bind_gets, Hl.
  - unfold world_after, in_session. by destruct (end_ _) as [[??]?].
Qed.

End Public.


(** A line of the example [threads_example], on a new session of width
    80. *)
Lemma line_registers_entry_witness :
  let w := new_world 80 in
  let kw : gmap string string := {[ "thread" := "3"; "count" := "0" ]} in
  let entry := mkEntry 0 "[Thread 3]: 0" 0 1 in
  ∃ o,
    line named_format "[Thread {thread}]: {count}" kw w
    = (inr 0%nat,
       mkWorld [mkLine "[Thread {thread}]: {count}" kw]
         (mkSession 2 [entry] 1 80), o) ∧
    ink o
      = blank_rows (range 0 1) ++ erase_rows (range 0 1)
        ++ [(0, Text "[Thread 3]: 0")] ∧
    lookup_entry 0 [entry] = Some (0%nat, entry) ∧
    [mkLine "[Thread {thread}]: {count}" kw] !! 0%nat
      = Some (mkLine "[Thread {thread}]: {count}" kw).
Proof.
  intros w kw entry.
  refine (line_registers_entry named_format w "[Thread {thread}]: {count}"
            kw "[Thread 3]: 0" 1 _ _ _); vm_compute; reflexivity.
Defined.

Lemma line_raises_on_width_zero_witness :
  line named_format "Hello World!" ∅ (new_world 0)
  = (inl ZeroDivisionError,
     mkWorld [mkLine "Hello World!" ∅] (LinesSession_init 0), []).
Proof.
  refine (line_raises_on_width_zero named_format (new_world 0)
            "Hello World!" ∅ "Hello World!" _ _ _); reflexivity.
Defined.

(** A Line object built by hand, which the session does not know. *)
Lemma update_of_unregistered_line_raises_witness :
  let w := mkWorld [mkLine "a" (∅ : gmap string string)]
             (LinesSession_init 80) in
  Line_update named_format 0 (Some "b") ∅ w
  = (inl (KeyError_id 0),
     mkWorld [mkLine "b" (∅ ∪ ∅)] (LinesSession_init 80), []).
Proof.
  intros w.
  refine (update_of_unregistered_line_raises named_format w 0 (Some "b") ∅
            (mkLine "a" ∅) _ _); reflexivity.
Defined.

Lemma update_render_error_keeps_session_witness :
  let w := world_after (line named_format "{count}" {[ "count" := "0" ]})
             (new_world 80) in
  Line_update named_format 0 (Some "{total}") {[ "count" := "1" ]} w
  = (inl (KeyError "total"),
     mkWorld [mkLine "{total}" ({[ "count" := "1" ]} ∪ ∅)]
       (mkSession 2 [mkEntry 0 "0" 0 1] 1 80), []).
Proof.
  intros w.
  refine (update_render_error_keeps_session named_format w 0
            (Some "{total}") {[ "count" := "1" ]}
            (mkLine "{count}" {[ "count" := "0" ]}) 0 (mkEntry 0 "0" 0 1)
            (KeyError "total") _ _ _); vm_compute; reflexivity.
Defined.

Lemma update_without_template_merges_params_witness :
  let l := mkLine "{a} {b}" ({[ "a" := "1"; "b" := "2" ]} : gmap string string) in
  let kw : gmap string string := {[ "b" := "3" ]} in
  let w := world_after (line named_format "{a} {b}" (kwargs l))
             (new_world 80) in
  ∃ l',
    handles (world_after (Line_update named_format 0 None kw) w) !! 0%nat
      = Some l' ∧
    template l' = template l ∧
    ∀ name,
      kwargs l' !! name
      = match kw !! name with
        | Some v => Some v
        | None => kwargs l !! name
        end.
Proof.
  intros l kw w.
  refine (update_without_template_merges_params named_format w 0 kw l _).
  vm_compute; reflexivity.
Defined.

(** ** Entries are never removed or reordered *)

Lemma keys_kept_refl (s : LinesSession) : keys_kept s [] s.
Proof. done. Qed.

Lemma keys_kept_trans s1 o1 s2 o2 s3 :
  keys_kept s1 o1 s2 → keys_kept s2 o2 s3 → keys_kept s1 (o1 ++ o2) s3.
Proof. intros [H1 W1] [H2 W2]. split; congruence. Qed.

Lemma keys_kept_modify (f : LinesSession → LinesSession) (s : LinesSession) :
  keys (f s) = keys s →
  available_width (f s) = available_width s →
  holds keys_kept (modify f) s.
Proof. by split. Qed.

Lemma keys_kept_print (c : term_out) (s : LinesSession) :
  holds keys_kept (print c) s.
Proof. by split. Qed.

Lemma map_line_obj_alter (f : _LineEntry → _LineEntry) (i : nat)
    (l : list _LineEntry) :
  (∀ e, line_obj (f e) = line_obj e) →
  map line_obj (alter f i l) = map line_obj l.
Proof.
  intros Hf. revert i. induction l as [|e l IH]; intros [|i]; simpl; [done..| |].
  - by rewrite Hf.
  - f_equal. apply IH.
Qed.

Lemma keys_kept_set_cursor (n : Z) (s : LinesSession) :
  holds keys_kept (_set_cursor_to_line_number n) s.
Proof.
  unfold _set_cursor_to_line_number. apply holds_gets.
  apply (holds_bind _ keys_kept_trans).
  - destruct (_ =? _); [|destruct (_ <? _)]; apply keys_kept_print.
  - intros _ s1 _ _. by apply keys_kept_modify.
Qed.

Lemma keys_kept_print_at_line (t : string) (n : Z) (s : LinesSession) :
  holds keys_kept (_print_at_line t n) s.
Proof.
  unfold _print_at_line.
  apply (holds_bind _ keys_kept_trans).
  { unfold holds, output_of, world_after. by rewrite compute_run. }
  intros size s1 _ _.
  apply (holds_bind _ keys_kept_trans).
  { apply (holds_for_each _ keys_kept_refl keys_kept_trans). intros p _ s2.
    apply (holds_bind _ keys_kept_trans); [apply keys_kept_set_cursor|].
    intros _ s3 _ _. apply keys_kept_print. }
  intros _ s2 _ _.
  apply (holds_bind _ keys_kept_trans); [apply keys_kept_set_cursor|].
  intros _ s3 _ _.
  apply (holds_bind _ keys_kept_trans); [apply keys_kept_print|].
  intros _ s4 _ _.
  apply (holds_bind _ keys_kept_trans); [by apply keys_kept_modify|].
  intros _ s5 _ _. do 2 apply holds_gets. by apply keys_kept_modify.
Qed.

Lemma keys_kept_blank_loop (l : list Z) (s : LinesSession) :
  holds keys_kept (for_each l (λ n, _print_at_line "" n)) s.
Proof.
  apply (holds_for_each _ keys_kept_refl keys_kept_trans).
  intros n _ s1. apply keys_kept_print_at_line.
Qed.

Lemma keys_kept_extend (size : Z) (s : LinesSession) :
  holds keys_kept (_extend size) s.
Proof. unfold _extend. apply holds_gets, keys_kept_blank_loop. Qed.

Lemma keys_kept_truncate (s : LinesSession) : holds keys_kept _truncate s.
Proof.
  unfold _truncate. do 2 apply holds_gets.
  apply (holds_bind _ keys_kept_trans); [apply keys_kept_blank_loop|].
  intros _ s1 _ _.
  apply (holds_bind _ keys_kept_trans); [apply keys_kept_set_cursor|].
  intros _ s2 _ _. apply holds_gets. by apply keys_kept_modify.
Qed.

Lemma keys_kept_end (s : LinesSession) : holds keys_kept end_ s.
Proof. unfold end_. apply holds_gets, keys_kept_set_cursor. Qed.

Lemma keys_kept_alter (f : _LineEntry → _LineEntry) (i : nat)
    (s : LinesSession) :
  (∀ e, line_obj (f e) = line_obj e) →
  holds keys_kept
    (modify (λ s, set_lines_index (alter f i (lines_index s)) s)) s.
Proof.
  intros Hf. apply keys_kept_modify; [|done].
  unfold keys. simpl. by apply map_line_obj_alter.
Qed.

Lemma keys_kept_shift_following (chain : list _LineEntry) (pos : nat)
    (cur : Z) (s : LinesSession) :
  holds keys_kept (shift_following chain pos cur) s.
Proof.
  revert pos cur s. induction chain as [|e rest IH]; intros pos cur s; simpl.
  - apply keys_kept_refl.
  - apply (holds_bind _ keys_kept_trans); [by apply keys_kept_alter|].
    intros _ s1 _ _.
    apply (holds_bind _ keys_kept_trans); [apply keys_kept_print_at_line|].
    intros _ s2 _ _. apply IH.
Qed.

Lemma keys_kept_print_line_in (key : nat) (rendered : exn + string)
    (s : LinesSession) :
  holds keys_kept (print_line_in key rendered) s.
Proof.
  unfold print_line_in. apply holds_gets.
  destruct (lookup_entry key (lines_index s)) as [[pos e]|];
    [|apply keys_kept_refl].
  apply (holds_bind _ keys_kept_trans);
    [apply (holds_of_result _ keys_kept_refl)|].
  intros t s1 _ _.
  apply (holds_bind _ keys_kept_trans); [by apply keys_kept_alter|].
  intros _ s2 _ _.
  apply (holds_bind _ keys_kept_trans).
  { unfold holds, output_of, world_after. by rewrite compute_run. }
  intros new s3 _ _.
  apply (holds_bind _ keys_kept_trans).
  { apply (holds_when _ keys_kept_refl). intros _. apply keys_kept_extend. }
  intros _ s4 _ _.
  apply (holds_bind _ keys_kept_trans); [apply keys_kept_print_at_line|].
  intros _ s5 _ _.
  apply (holds_bind _ keys_kept_trans).
  { apply (holds_when _ keys_kept_refl). intros _.
    apply (holds_bind _ keys_kept_trans); [by apply keys_kept_alter|].
    intros _ s6 _ _. apply keys_kept_shift_following. }
  intros _ s6 _ _.
  apply (holds_when _ keys_kept_refl). intros _. apply keys_kept_truncate.
Qed.

(** [line] registers at most one entry, at the end, under the id of its
    Line object. *)
Lemma keys_after_line_in (key : nat) (rendered : exn + string)
    (s : LinesSession) :
  (keys (world_after (line_in key rendered) s) = keys s
   ∨ keys (world_after (line_in key rendered) s) = keys s ++ [key]) ∧
  available_width (world_after (line_in key rendered) s) = available_width s.
Proof.
  unfold world_after, line_in.
  destruct rendered as [err|t]; [by split; [left|]|].
  rewrite bind_of_result.
  destruct (nb_physical_lines_of (available_width s) (len t))
    as [err|nb] eqn:Hh.
  { unfold bind. rewrite compute_run, Hh. by split; [left|]. }
  rewrite (bind_compute t nb) by done. rewrite bind_gets, bind_modify.
  set (s1 := set_lines_index _ s).
  assert (H : holds keys_kept
                (_extend (nb - 1) ;;
                 _print_at_line t
                   (line_number (mkEntry key t (lines_counter s - 1) nb))) s1).
  { apply (holds_bind _ keys_kept_trans); [apply keys_kept_extend|].
    intros _ s2 _ _. apply keys_kept_print_at_line. }
  destruct H as [Hk Hw]. unfold world_after in Hk, Hw.
  destruct (bind _ _ s1) as [[r s2] o2]. simpl in *.
  split; [right|done]. rewrite Hk. unfold keys, s1. simpl.
  by rewrite map_app.
Qed.

Lemma lookup_entry_is_Some (key : nat) (l : list _LineEntry) :
  is_Some (lookup_entry key l) ↔ key ∈ map line_obj l.
Proof.
  induction l as [|e l IH]; simpl.
  - split; [by intros [? ?]|by intros ?%elem_of_nil].
  - rewrite elem_of_cons, <- IH.
    destruct (lookup_entry key l) as [[i e']|]; [by split; eauto|].
    case_decide as Hk; split.
    + by left.
    + by eauto.
    + by intros [? ?].
    + intros [->|[? ?]]; done.
Qed.

Section Registry.

Context {value : Type}.
Variable str_format : string → gmap string value → exn + string.

Lemma line_keys (w : world value) (tpl : string) (kw : gmap string value) :
  let s' := session (world_after (line str_format tpl kw) w) in
  (keys s' = keys (session w)
   ∨ keys s' = keys (session w) ++ [length (handles w)]) ∧
  available_width s' = available_width (session w).
Proof.
  unfold world_after. destruct (kw !! "session") as [v|] eqn:Hs.
  { rewrite (line_not_made str_format tpl kw w v Hs). simpl.
    by split; [left|]. }
  rewrite (line_made str_format tpl kw w Hs), bind_modify.
  pose proof (keys_after_line_in (length (handles w))
                (Line_text str_format (mkLine tpl kw)) (session w)) as H.
  unfold world_after in H. unfold bind, in_session. simpl.
  by destruct (line_in _ _ _) as [[[?|?] ?] ?].
Qed.

Lemma update_keys (w : world value) (key : nat) (otpl : option string)
    (kw : gmap string value) :
  let s' := session (world_after (Line_update str_format key otpl kw) w) in
  keys s' = keys (session w) ∧
  available_width s' = available_width (session w).
Proof.
  apply (holds_Line_update str_format keys_kept key otpl kw w keys_kept_refl).
  intros. apply keys_kept_print_line_in.
Qed.

Lemma end_keys (w : world value) :
  let s' := session (world_after (in_session end_) w) in
  keys s' = keys (session w) ∧
  available_width s' = available_width (session w).
Proof.
  apply (holds_in_session (value:=value) keys_kept end_ w), keys_kept_end.
Qed.

Lemma line_handles (w : world value) (tpl : string) (kw : gmap string value) :
  kw !! "session" = None →
  handles (world_after (line str_format tpl kw) w)
  = handles w ++ [mkLine tpl kw].
Proof.
  intros Hs. unfold world_after.
  rewrite (line_made str_format tpl kw w Hs), bind_modify.
  unfold bind, in_session. simpl.
  by destruct (line_in _ _ _) as [[[?|?] ?] ?].
Qed.

Lemma update_handles_length (w : world value) (key : nat)
    (otpl : option string) (kw : gmap string value) :
  length (handles (world_after (Line_update str_format key otpl kw) w))
  = length (handles w).
Proof.
  destruct (handles w !! key) as [l|] eqn:Hl.
  - unfold world_after. rewrite (Line_update_run str_format key otpl kw w l Hl).
    unfold in_session. destruct (print_line_in _ _ _) as [[??]?]. simpl.
    by rewrite length_insert.
  - unfold world_after, Line_update. by rewrite bind_gets, Hl.
Qed.

Lemma end_handles (w : world value) :
  handles (world_after (in_session end_) w) = handles w.
Proof. unfold world_after, in_session. by destruct (end_ _) as [[??]?]. Qed.

(** X12. No call of the interface removes or reorders entries or changes
    the width, whether it returns or raises: after [update] and after
    [end] the entries stand for the same Line objects in the same order;
    after [line] they do too, with at most one more entry, at the end,
    for the new Line object. *)
Theorem calls_never_remove_entries (w : world value) (tpl : string)
    (key : nat) (otpl : option string) (kw : gmap string value) :
  (let s' := session (world_after (line str_format tpl kw) w) in
   (keys s' = keys (session w)
    ∨ keys s' = keys (session w) ++ [length (handles w)]) ∧
   available_width s' = available_width (session w)) ∧
  (let s' := session (world_after (Line_update str_format key otpl kw) w) in
   keys s' = keys (session w) ∧
   available_width s' = available_width (session w)) ∧
  (let s' := session (world_after (in_session end_) w) in
   keys s' = keys (session w) ∧
   available_width s' = available_width (session w)).
Proof.
  split; [apply line_keys|]. split; [apply update_keys|apply end_keys].
Qed.

Lemma step_keys (w w' : world value) :
  step str_format w w' →
  (length (handles w) <= length (handles w'))%nat ∧
  (keys (session w') = keys (session w)
   ∨ (keys (session w') = keys (session w) ++ [length (handles w)]
      ∧ (length (handles w) < length (handles w'))%nat)).
Proof.
  intros Hstep. destruct Hstep as [tpl kw w|key tpl kw w|w].
  - destruct (kw !! "session") as [v|] eqn:Hs.
    { rewrite (line_not_made str_format tpl kw w v Hs). simpl.
      split; [lia|by left]. }
    pose proof (line_keys w tpl kw) as [Hk _].
    pose proof (line_handles w tpl kw Hs) as Hh.
    unfold world_after in Hk, Hh. rewrite Hh, length_app. simpl.
    split; [lia|]. destruct Hk as [Hk|Hk]; [by left|right].
    split; [done|lia].
  - pose proof (update_keys w key tpl kw) as [Hk _].
    pose proof (update_handles_length w key tpl kw) as Hh.
    unfold world_after in Hk, Hh. rewrite Hh. split; [done|by left].
  - pose proof (end_keys w) as [Hk _].
    pose proof (end_handles w) as Hh.
    unfold world_after in Hk, Hh. rewrite Hh. split; [done|by left].
Qed.

(** X13. In every world a program reaches from a new session, of any
    width: the entries stand for distinct Line objects, each of them an
    object the program was given by [line]; and each entry is the one
    its own id finds in the session. *)
Theorem reachable_registry_consistent (width : Z) (w : world value) :
  reachable str_format width w →
  NoDup (keys (session w)) ∧
  (∀ k, k ∈ keys (session w) → (k < length (handles w))%nat) ∧
  (∀ i e, lines_index (session w) !! i = Some e →
          lookup_entry (line_obj e) (lines_index (session w)) = Some (i, e)).
Proof.
  intros Hreach.
  assert (NoDup (keys (session w)) ∧
          (∀ k, k ∈ keys (session w) → (k < length (handles w))%nat))
    as [Hnd Hlt].
  { unfold reachable in Hreach. revert w Hreach. apply rtc_ind_r.
    - split; [constructor|]. intros k Hk. by apply elem_of_nil in Hk.
    - intros w0 w1 _ Hstep [Hnd Hlt].
      destruct (step_keys _ _ Hstep) as [Hlen [Hk|[Hk Hlen']]]; rewrite Hk.
      + split; [done|]. intros k Hin. specialize (Hlt k Hin). lia.
      + split.
        * apply NoDup_app. split; [done|]. split; [|apply NoDup_singleton].
          intros k Hin Hk'. apply list_elem_of_singleton in Hk'.
          specialize (Hlt k Hin). lia.
        * intros k [Hin| ->%list_elem_of_singleton]%elem_of_app; [|lia].
          specialize (Hlt k Hin). lia. }
  split; [done|]. split; [done|].
  clear Hlt. unfold keys in Hnd.
  induction (lines_index (session w)) as [|e0 l IH]; intros i e Hi; [done|].
  simpl in Hnd. apply NoDup_cons in Hnd as [Hnot Hnd]. simpl.
  destruct i as [|i]; simpl in Hi.
  - injection Hi as ->.
    destruct (lookup_entry (line_obj e) l) as [[j e']|] eqn:Hl.
    + exfalso. apply Hnot, lookup_entry_is_Some. by rewrite Hl.
    + by rewrite decide_True.
  - by rewrite (IH Hnd i e Hi).
Qed.


End Registry.

(** Two lines on a new session of width 80. *)
Lemma reachable_registry_consistent_witness :
  let w := world_after (line named_format "b" ∅)
             (world_after (line named_format "a" ∅) (new_world 80)) in
  NoDup (keys (session w)) ∧
  (∀ k, k ∈ keys (session w) → (k < length (handles w))%nat) ∧
  (∀ i e, lines_index (session w) !! i = Some e →
          lookup_entry (line_obj e) (lines_index (session w)) = Some (i, e)).
Proof.
  intros w.
  refine (reachable_registry_consistent named_format 80 w _).
  unfold reachable.
  eapply rtc_l; [apply (step_line named_format "a" ∅)|].
  eapply rtc_l; [apply (step_line named_format "b" ∅)|].
  apply rtc_refl.
Defined.


(** ** Rows of the entries, call after call *)

Lemma ordered_from_no_overlap (row : Z) (l : list _LineEntry) :
  ordered_from row l → no_overlap l.
Proof.
  revert row. induction l as [|e l IH]; intros row; [by intros _ []|].
  intros [_ Hl] [|i] e1 e2; simpl.
  - intros [= <-] H2. destruct l as [|e' l]; [done|].
    simpl in H2. injection H2 as <-. by destruct Hl as [Hl _].
  - by apply (IH _ Hl).
Qed.

Lemma no_overlap_ordered_from (l : list _LineEntry) :
  no_overlap l →
  match l with
  | [] => True
  | e :: _ => ordered_from (line_number e) l
  end.
Proof.
  induction l as [|e l IH]; intros H; [done|].
  split; [done|].
  assert (Hl : no_overlap l).
  { intros i e1 e2 H1 H2. by apply (H (S i)). }
  specialize (IH Hl). destruct l as [|e' l]; [done|].
  destruct IH as [_ IH]. split; [|done]. by apply (H 0%nat).
Qed.

Lemma ordered_from_le (row row' : Z) (l : list _LineEntry) :
  row' <= row → ordered_from row l → ordered_from row' l.
Proof. destruct l as [|e l]; [done|]. intros Hle [H1 H2]. split; [lia|done]. Qed.

Lemma chain_end_cons (row : Z) (e : _LineEntry) (l : list _LineEntry) :
  chain_end row (e :: l) = chain_end (entry_end e) l.
Proof. apply (chain_end_middle row []). Qed.

Lemma ordered_from_app (row : Z) (l1 l2 : list _LineEntry) :
  ordered_from row (l1 ++ l2)
  ↔ ordered_from row l1 ∧ ordered_from (chain_end row l1) l2.
Proof.
  revert row. induction l1 as [|e l1 IH]; intros row; simpl.
  - unfold chain_end. simpl. tauto.
  - rewrite IH, chain_end_cons. tauto.
Qed.

Lemma contiguous_from_ordered (row : Z) (l : list _LineEntry) :
  contiguous_from row l → ordered_from row l.
Proof.
  revert row. induction l as [|e l IH]; intros row; [done|].
  intros [<- Hl]. split; [lia|by apply IH].
Qed.

(** In entries that do not overlap and have heights of at least one
    row, the last entry ends below all the others. *)
Lemma ordered_from_chain_end (width row : Z) (l : list _LineEntry) :
  Forall (entry_ok width) l → ordered_from row l →
  row + total_height l <= chain_end row l.
Proof.
  intros Hok. revert row. induction Hok as [|e l He _ IH]; intros row.
  - unfold chain_end. simpl. lia.
  - intros [Hrow Hl]. rewrite chain_end_cons. specialize (IH _ Hl).
    simpl. unfold entry_end in *. lia.
Qed.

Lemma no_overlap_middle (pre : list _LineEntry) e post :
  no_overlap (pre ++ e :: post) →
  ∃ row, ordered_from row pre ∧ chain_end row pre <= line_number e
         ∧ ordered_from (entry_end e) post.
Proof.
  intros H. apply no_overlap_ordered_from in H.
  destruct pre as [|e0 pre].
  - exists (line_number e). destruct H as [_ H].
    unfold chain_end. simpl. split; [done|]. split; [lia|done].
  - exists (line_number e0).
    assert (H' : ordered_from (line_number e0) ((e0 :: pre) ++ e :: post))
      by exact H.
    apply ordered_from_app in H' as [H1 [H2 H3]]. done.
Qed.

Lemma no_overlap_middle_intro (row : Z) (pre : list _LineEntry) e post :
  ordered_from row pre → chain_end row pre <= line_number e →
  ordered_from (entry_end e) post →
  no_overlap (pre ++ e :: post).
Proof.
  intros H1 H2 H3. apply (ordered_from_no_overlap row).
  apply ordered_from_app. split; [done|]. by split.
Qed.

(** Every run of [print_line], on a terminal of a width other than 0,
    keeps a session well formed, keeps contiguous entries contiguous and
    keeps entries that do not overlap from overlapping. *)
Lemma print_line_in_keeps_rows (key : nat) (rendered : exn + string)
    (s : LinesSession) :
  available_width s ≠ 0 → session_ok s →
  let s' := world_after (print_line_in key rendered) s in
  session_ok s' ∧
  (contiguous (lines_index s) → contiguous (lines_index s')) ∧
  (no_overlap (lines_index s) → no_overlap (lines_index s')).
Proof.
  intros Hw Hok s'. subst s'. unfold world_after.
  destruct (lookup_entry key (lines_index s)) as [[pos e]|] eqn:Hlook.
  2:{ unfold print_line_in. rewrite bind_gets, Hlook. done. }
  destruct rendered as [err|t].
  { unfold print_line_in. rewrite bind_gets, Hlook. done. }
  pose proof (nb_physical_lines_of_nonzero _ (len t) Hw) as Hh.
  destruct (print_line_in_keeps_contiguous key t s pos e _ Hok Hlook Hh)
    as (s' & o & H & Hok' & _ & Hc).
  rewrite H. simpl. split; [done|]. split; [done|].
  destruct (lookup_entry_split _ _ _ _ Hlook) as (pre & post & Hidx & ->).
  destruct Hok as (Hall & _ & _). rewrite Hidx in Hall.
  apply Forall_app in Hall as [_ Hall].
  apply Forall_cons in Hall as [_ Hpost].
  intros Hno. rewrite Hidx in Hno.
  apply no_overlap_middle in Hno as (row & H1 & H2 & H3).
  set (new := Z.max 1 (- (- len t / available_width s))) in *.
  destruct (decide (new = nb_physical_lines e)) as [Heq|Hne].
  - rewrite Heq in Hh.
    destruct (print_line_in_same_height key t s _ e Hlook Hh) as (o' & H' & _).
    rewrite H' in H. injection H as <- _. simpl.
    rewrite Hidx, alter_middle. by apply (no_overlap_middle_intro row).
  - destruct (print_line_in_resize key t s pre e post new Hlook Hidx Hh Hne
                Hpost) as (o' & H' & _).
    rewrite H' in H. injection H as <- _. simpl.
    apply (no_overlap_middle_intro row); [done|done|].
    apply contiguous_from_ordered, renumber_contiguous.
Qed.

(** Every run of [line], on a terminal of a width other than 0, keeps a
    session well formed and keeps entries from overlapping; it keeps
    [lines_counter] one above contiguous entries, and the entries
    contiguous, when they were so before. *)
Lemma line_in_keeps_rows (key : nat) (rendered : exn + string)
    (s : LinesSession) :
  available_width s ≠ 0 → session_ok s →
  let s' := world_after (line_in key rendered) s in
  session_ok s' ∧
  (no_overlap (lines_index s) → no_overlap (lines_index s')) ∧
  (tight s → contiguous (lines_index s) →
   tight s' ∧ contiguous (lines_index s')).
Proof.
  intros Hw Hok s'. subst s'. unfold world_after.
  destruct rendered as [err|t]; [done|].
  pose proof (nb_physical_lines_of_nonzero _ (len t) Hw) as Hh.
  destruct (line_in_keeps_contiguous_when_tight key t s _ Hok Hh)
    as (s' & o & H & Hok' & _ & Htight & Hc).
  rewrite H. simpl. split; [done|]. split; [|by auto].
  destruct (line_in_run key t s _ Hh) as (o' & H' & _).
  rewrite H' in H. injection H as <- _. simpl.
  destruct Hok as (_ & _ & Hend).
  intros Hno. destruct (lines_index s) as [|e0 l] eqn:E.
  { by intros []. }
  apply no_overlap_ordered_from in Hno.
  apply (ordered_from_no_overlap (line_number e0)).
  apply ordered_from_app. split; [done|]. simpl. split; [|done].
  rewrite (chain_end_fallback _ (lines_counter s - 1)) by done. lia.
Qed.

Section Rows.

Context {value : Type}.
Variable str_format : string → gmap string value → exn + string.

Lemma session_after_line (w : world value) (tpl : string)
    (kw : gmap string value) :
  session (world_after (line str_format tpl kw) w) = session w
  ∨ session (world_after (line str_format tpl kw) w)
    = world_after
        (line_in (length (handles w)) (Line_text str_format (mkLine tpl kw)))
        (session w).
Proof.
  unfold world_after. destruct (kw !! "session") as [v|] eqn:Hs;
    [left; by rewrite (line_not_made str_format tpl kw w v Hs)|right].
  rewrite (line_made str_format tpl kw w Hs), bind_modify.
  unfold bind, in_session. simpl.
  by destruct (line_in _ _ _) as [[[?|?] ?] ?].
Qed.

Lemma session_after_update (w : world value) (key : nat)
    (otpl : option string) (kw : gmap string value) :
  session (world_after (Line_update str_format key otpl kw) w) = session w
  ∨ ∃ rendered,
      session (world_after (Line_update str_format key otpl kw) w)
      = world_after (print_line_in key rendered) (session w).
Proof.
  destruct (handles w !! key) as [l|] eqn:Hl.
  - right. exists (Line_text str_format (updated_handle otpl kw l)).
    unfold world_after. rewrite (Line_update_run str_format key otpl kw w l Hl).
    unfold in_session. simpl. by destruct (print_line_in _ _ _) as [[??]?].
  - left. unfold world_after, Line_update. by rewrite bind_gets, Hl.
Qed.

(** X15. On a terminal of a width other than 0, every call of [update],
    returning or raising, keeps a well-formed session well formed
    (heights are those of the texts, the cursor and the rows of the
    entries are above the last row), keeps contiguous entries contiguous
    and keeps entries that do not overlap from overlapping. *)
Theorem update_keeps_rows_in_order (w : world value) (key : nat)
    (otpl : option string) (kw : gmap string value) :
  available_width (session w) ≠ 0 → session_ok (session w) →
  let s' := session (world_after (Line_update str_format key otpl kw) w) in
  session_ok s' ∧
  (contiguous (lines_index (session w)) → contiguous (lines_index s')) ∧
  (no_overlap (lines_index (session w)) → no_overlap (lines_index s')).
Proof.
  intros Hw Hok.
  destruct (session_after_update w key otpl kw) as [->|[rendered ->]];
    [done|].
  by apply print_line_in_keeps_rows.
Qed.

(** X16. On a terminal of a width other than 0, every call of [line],
    returning or raising, keeps a well-formed session well formed and
    keeps entries from overlapping. If [lines_counter] is one above the
    rows of contiguous entries before the call, it is so after it: the
    new entry starts on the row after the last one. *)
Theorem line_keeps_rows_in_order (w : world value) (tpl : string)
    (kw : gmap string value) :
  available_width (session w) ≠ 0 → session_ok (session w) →
  let s' := session (world_after (line str_format tpl kw) w) in
  session_ok s' ∧
  (no_overlap (lines_index (session w)) → no_overlap (lines_index s')) ∧
  (tight (session w) → contiguous (lines_index (session w)) →
   tight s' ∧ contiguous (lines_index s')).
Proof.
  intros Hw Hok.
  destruct (session_after_line w tpl kw) as [-> | ->]; [by auto|].
  by apply line_in_keeps_rows.
Qed.

Lemma step_keeps_rows (w w' : world value) :
  step str_format w w' →
  available_width (session w) ≠ 0 →
  session_ok (session w) ∧ no_overlap (lines_index (session w)) →
  session_ok (session w') ∧ no_overlap (lines_index (session w')).
Proof.
  intros Hstep Hw [Hok Hno]. destruct Hstep as [tpl kw w|key tpl kw w|w].
  - fold (world_after (line str_format tpl kw) w).
    destruct (session_after_line w tpl kw) as [-> | ->]; [done|].
    destruct (line_in_keeps_rows (length (handles w))
                (Line_text str_format (mkLine tpl kw)) (session w) Hw Hok)
      as (H1 & H2 & _). auto.
  - fold (world_after (Line_update str_format key tpl kw) w).
    destruct (session_after_update w key tpl kw) as [->|[rendered ->]];
      [done|].
    destruct (print_line_in_keeps_rows key rendered (session w) Hw Hok)
      as (H1 & _ & H2). auto.
  - fold (world_after (in_session (value:=value) end_) w).
    rewrite (in_session_after (A:=unit)).
    destruct (end_keeps_ok (session w) Hok) as [H1 _]. split; [done|].
    unfold world_after, end_. rewrite bind_gets.
    destruct (set_cursor_run (lines_counter (session w) - 1) (session w))
      as (o & H & _).
    rewrite H. done.
Qed.

(** X17. In every world a program reaches from a new session of a width
    other than 0, whatever calls it made: the height of each entry is the
    height of its text, at least 1; the cursor is above the last row
    [lines_counter - 1]; no entry lies over the next one; and the rows
    of all the entries are above the last row. *)
Theorem reachable_rows_in_order (width : Z) (w : world value) :
  width ≠ 0 → reachable str_format width w →
  available_width (session w) = width ∧
  Forall (λ e, nb_physical_lines_of width (len (text e))
               = inr (nb_physical_lines e)
               ∧ 1 <= nb_physical_lines e) (lines_index (session w)) ∧
  current_line (session w) < lines_counter (session w) ∧
  no_overlap (lines_index (session w)) ∧
  Forall (λ e, line_number e + nb_physical_lines e
               < lines_counter (session w)) (lines_index (session w)).
Proof.
  intros Hw Hreach.
  destruct (reachable_session_ok str_format width w Hw Hreach) as [_ Hwidth].
  assert (Hinv : session_ok (session w)
                 ∧ no_overlap (lines_index (session w))).
  { unfold reachable in Hreach. revert w Hreach Hwidth.
    apply (rtc_ind_r (λ w, available_width (session w) = width →
                           session_ok (session w)
                           ∧ no_overlap (lines_index (session w)))).
    - intros _. split; [apply init_session_ok|by intros []].
    - intros w0 w1 Hreach0 Hstep IH Hw1.
      destruct (reachable_session_ok str_format width w0 Hw Hreach0)
        as [_ Hw0].
      apply (step_keeps_rows w0 w1 Hstep); [congruence|by apply IH]. }
  destruct Hinv as [(Hok & Hcl & Hend) Hno].
  split; [done|]. rewrite Hwidth in Hok.
  split.
  { eapply Forall_impl; [exact Hok|]. intros e He. split; [exact He|].
    by apply nb_physical_lines_of_ge_1 in He as [? _]. }
  split; [done|]. split; [done|].
  (* every entry ends at or above the end of the last one *)
  clear Hcl. revert Hend Hno Hok.
  generalize (lines_counter (session w)) as lc.
  induction (lines_index (session w)) as [|e l IH]; intros lc Hend Hno Hok;
    [constructor|].
  apply Forall_cons in Hok as [He Hok].
  rewrite chain_end_cons in Hend.
  pose proof (no_overlap_ordered_from _ Hno) as [_ Hord].
  pose proof (ordered_from_chain_end _ _ _ Hok Hord) as Hle.
  pose proof (total_height_nonneg _ _ Hok) as Htot.
  unfold entry_end in *.
  constructor; [lia|].
  destruct l as [|e' l]; [constructor|].
  apply IH; [|by intros i e1 e2 H1 H2; apply (Hno (S i))|done].
  by rewrite (chain_end_fallback _ (line_number e + nb_physical_lines e)).
Qed.

End Rows.

Lemma update_keeps_rows_in_order_witness :
  let w := world_after (line named_format "a" ∅) (new_world 80) in
  let s' := session (world_after (Line_update named_format 0
                                    (Some (repeat_char "x" 200)) ∅) w) in
  session_ok s' ∧
  (contiguous (lines_index (session w)) → contiguous (lines_index s')) ∧
  (no_overlap (lines_index (session w)) → no_overlap (lines_index s')).
Proof.
  intros w.
  refine (update_keeps_rows_in_order named_format w 0
            (Some (repeat_char "x" 200)) ∅ _ _).
  - vm_compute. discriminate.
  - apply (reachable_session_ok named_format 80 w); [lia|].
    apply rtc_once, (step_line named_format "a" ∅).
Defined.

Lemma line_keeps_rows_in_order_witness :
  let w := world_after (line named_format "a" ∅) (new_world 80) in
  let s' := session (world_after (line named_format "b" ∅) w) in
  session_ok s' ∧
  (no_overlap (lines_index (session w)) → no_overlap (lines_index s')) ∧
  (tight (session w) → contiguous (lines_index (session w)) →
   tight s' ∧ contiguous (lines_index s')).
Proof.
  intros w.
  refine (line_keeps_rows_in_order named_format w "b" ∅ _ _).
  - vm_compute. discriminate.
  - apply (reachable_session_ok named_format 80 w); [lia|].
    apply rtc_once, (step_line named_format "a" ∅).
Defined.

(** The session in which a line grows and a second line is added. *)
Lemma reachable_rows_in_order_witness :
  let w := world_after (line named_format "b" ∅)
             (world_after (Line_update named_format 0
                             (Some (repeat_char "x" 200)) ∅)
                (world_after (line named_format "a" ∅) (new_world 80))) in
  available_width (session w) = 80 ∧
  Forall (λ e, nb_physical_lines_of 80 (len (text e))
               = inr (nb_physical_lines e)
               ∧ 1 <= nb_physical_lines e) (lines_index (session w)) ∧
  current_line (session w) < lines_counter (session w) ∧
  no_overlap (lines_index (session w)) ∧
  Forall (λ e, line_number e + nb_physical_lines e
               < lines_counter (session w)) (lines_index (session w)).
Proof.
  intros w.
  refine (reachable_rows_in_order named_format 80 w _ _); [lia|].
  unfold reachable.
  eapply rtc_l; [apply (step_line named_format "a" ∅)|].
  eapply rtc_l;
    [apply (step_update named_format 0 (Some (repeat_char "x" 200)) ∅)|].
  eapply rtc_l; [apply (step_line named_format "b" ∅)|].
  apply rtc_refl.
Defined.

(** ** Resizing a line *)

Lemma lookup_entry_app (key : nat) (l1 l2 : list _LineEntry) :
  lookup_entry key (l1 ++ l2)
  = match lookup_entry key l2 with
    | Some (i, e) => Some ((length l1 + i)%nat, e)
    | None => lookup_entry key l1
    end.
Proof.
  induction l1 as [|e0 l1 IH]; simpl.
  - by destruct (lookup_entry key l2) as [[??]|].
  - rewrite IH. by destruct (lookup_entry key l2) as [[??]|].
Qed.

Lemma lookup_entry_middle (key : nat) (pre : list _LineEntry) e post e' post' :
  lookup_entry key (pre ++ e :: post) = Some (length pre, e) →
  line_obj e' = line_obj e →
  map line_obj post' = map line_obj post →
  lookup_entry key (pre ++ e' :: post') = Some (length pre, e').
Proof.
  rewrite !lookup_entry_app. simpl. intros H He Hpost.
  assert (Hnone : lookup_entry key post = None).
  { destruct (lookup_entry key post) as [[i e0]|]; [|done].
    injection H as H _. lia. }
  assert (Hnone' : lookup_entry key post' = None).
  { apply eq_None_not_Some. rewrite lookup_entry_is_Some, Hpost,
      <- lookup_entry_is_Some, Hnone. by intros [? ?]. }
  rewrite Hnone in H. rewrite Hnone'.
  case_decide as Hk.
  - rewrite decide_True by congruence. by rewrite Nat.add_0_r.
  - destruct (lookup_entry key pre) as [[i e0]|] eqn:Hpre; [|done].
    apply lookup_entry_Some in Hpre as [Hpre _].
    apply lookup_lt_Some in Hpre. injection H as H _. lia.
Qed.

Lemma map_line_obj_renumber (row : Z) (l : list _LineEntry) :
  map line_obj (renumber row l) = map line_obj l.
Proof.
  revert row. induction l as [|e l IH]; intros row; simpl; [done|].
  by rewrite IH.
Qed.

Section Resize.

Context {value : Type}.
Variable str_format : string → gmap string value → exn + string.

(** X18. In a well-formed session whose entries are contiguous,
    [print_line] for a text whose height differs by [delta] from the
    height the entry has moves every entry after it by [delta] rows and
    leaves the entries before it alone. When the line grows,
    [lines_counter] grows by [delta + 1]. When it shrinks,
    [lines_counter] ends one above the rows of the entries, lower by at
    least [- delta], with the cursor on the last row, so that [end]
    leaves the session as it is. *)
Theorem update_shifts_following_entries (w : world value) (key : nat)
    (l : Line value) (t : string) pre e post new :
  session_ok (session w) →
  contiguous (lines_index (session w)) →
  handles w !! key = Some l →
  Line_text str_format l = inr t →
  lookup_entry key (lines_index (session w)) = Some (length pre, e) →
  lines_index (session w) = pre ++ e :: post →
  nb_physical_lines_of (available_width (session w)) (len t) = inr new →
  new ≠ nb_physical_lines e →
  let delta := new - nb_physical_lines e in
  ∃ w' o,
    print_line str_format key w = (inr tt, w', o) ∧
    lines_index (session w')
      = pre ++ set_nb_physical_lines new (set_text t e)
            :: map (shift_row delta) post ∧
    (0 < delta →
       lines_counter (session w') = lines_counter (session w) + delta + 1) ∧
    (delta < 0 →
       lines_counter (session w') <= lines_counter (session w) + delta ∧
       tight (session w') ∧
       current_line (session w') = lines_counter (session w') - 1 ∧
       world_after end_ (session w') = session w').
Proof.
  intros Hok Hc Hl Ht Hlook Hidx Hh Hne delta.
  destruct (print_line_in_shifts_following key t (session w) pre e post new
              Hok Hc Hlook Hidx Hh Hne)
    as (s' & o & H & Hidx' & Hgrow & Hshrink).
  exists (set_session s' w), o. split.
  { rewrite (print_line_run str_format key w l Hl), Ht.
    by apply in_session_run. }
  simpl. split; [done|]. split; [done|].
  intros Hd. destruct (Hshrink Hd) as (H1 & H2 & H3 & H4).
  split; [done|]. split; [|done].
  unfold tight. rewrite H2, Hidx'.
  rewrite !(chain_end_middle _ pre). lia.
Qed.

(** X19. In a well-formed session with contiguous entries and
    [lines_counter] one above their rows, [print_line] for a text that
    is not higher than the entry keeps all this: the entries stay
    contiguous and [lines_counter] stays one above their rows. *)
Theorem update_not_growing_keeps_counter_tight (w : world value) (key : nat)
    (l : Line value) (t : string) pos e new :
  session_ok (session w) →
  tight (session w) →
  contiguous (lines_index (session w)) →
  handles w !! key = Some l →
  Line_text str_format l = inr t →
  lookup_entry key (lines_index (session w)) = Some (pos, e) →
  nb_physical_lines_of (available_width (session w)) (len t) = inr new →
  new <= nb_physical_lines e →
  ∃ w' o,
    print_line str_format key w = (inr tt, w', o) ∧
    session_ok (session w') ∧
    tight (session w') ∧
    contiguous (lines_index (session w')).
Proof.
  intros Hok Htight Hc Hl Ht Hlook Hh Hle.
  destruct (print_line_in_keeps_contiguous key t (session w) pos e new
              Hok Hlook Hh) as (s' & o & H & Hok' & _ & Hc').
  exists (set_session s' w), o. split.
  { rewrite (print_line_run str_format key w l Hl), Ht.
    by apply in_session_run. }
  simpl. split; [done|]. split; [|by auto].
  destruct (lookup_entry_split _ _ _ _ Hlook) as (pre & post & Hidx & ->).
  destruct (decide (new = nb_physical_lines e)) as [->|Hne].
  - destruct (print_line_in_same_height key t (session w) _ e Hlook Hh)
      as (o' & H' & _).
    rewrite H' in H. injection H as <- _.
    destruct Hok as (Hall & _ & _).
    unfold tight in *. simpl. rewrite Hidx in Htight, Hall, Hc |- *.
    rewrite alter_middle. rewrite chain_end_middle in Htight |- *.
    apply Forall_app in Hall as [_ Hall].
    apply Forall_cons in Hall as [_ Hpost].
    apply contiguous_contiguous_from in Hc as [row Hc].
    apply contiguous_from_middle in Hc as (_ & _ & Hc).
    pose proof (total_height_nonneg _ _ Hpost) as Htot.
    change (entry_end (set_text t e)) with (entry_end e).
    rewrite (chain_end_contiguous _ _ Hc) in Htight |- *.
    unfold entry_end in *. lia.
  - destruct (print_line_in_shifts_following key t (session w) pre e post new
                Hok Hc Hlook Hidx Hh Hne)
      as (s'' & o' & H' & Hidx' & _ & Hshrink).
    rewrite H' in H. injection H as <- _.
    destruct Hshrink as (_ & H2 & _); [lia|].
    unfold tight. rewrite H2, Hidx', !(chain_end_middle _ pre). lia.
Qed.

(** X20. Printing a registered line a second time with the same text
    changes neither the entries nor [lines_counter]: the second
    [print_line] only erases the rows of the line and writes its text
    again. *)
Theorem print_line_twice_is_once (w : world value) (key : nat)
    (l : Line value) (t : string) pos e :
  available_width (session w) ≠ 0 →
  session_ok (session w) →
  handles w !! key = Some l →
  Line_text str_format l = inr t →
  lookup_entry key (lines_index (session w)) = Some (pos, e) →
  ∃ w1 o1 w2 o2,
    print_line str_format key w = (inr tt, w1, o1) ∧
    print_line str_format key w1 = (inr tt, w2, o2) ∧
    lines_index (session w2) = lines_index (session w1) ∧
    lines_counter (session w2) = lines_counter (session w1) ∧
    printed_texts o2 = [(line_number e, t)].
Proof.
  intros Hw Hok Hl Ht Hlook.
  pose proof (nb_physical_lines_of_nonzero _ (len t) Hw) as Hh.
  set (new := Z.max 1 (- (- len t / available_width (session w)))) in *.
  destruct (lookup_entry_split _ _ _ _ Hlook) as (pre & post & Hidx & ->).
  destruct (lookup_entry_Some _ _ _ _ Hlook) as [_ Hkey].
  destruct Hok as (Hall & Hcl & Hend). rewrite Hidx in Hall.
  apply Forall_app in Hall as [_ Hall].
  apply Forall_cons in Hall as [_ Hpost].
  pose proof (total_height_nonneg _ _ Hpost) as Htot.
  (* the first call *)
  assert (∃ o1 lc1 cl1 post1,
    print_line_in key (inr t) (session w)
    = (inr tt,
       mkSession lc1
         (pre ++ set_nb_physical_lines new (set_text t e) :: post1) cl1
         (available_width (session w)), o1)
    ∧ map line_obj post1 = map line_obj post
    ∧ line_number e + new + 1 <= lc1)
    as (o1 & lc1 & cl1 & post1 & H1 & Hpost1 & Hlc1).
  { destruct (decide (new = nb_physical_lines e)) as [Heq|Hne].
    - pose proof Hh as Hh'. rewrite Heq in Hh'.
      destruct (print_line_in_same_height key t (session w) _ e Hlook Hh')
        as (o1 & H1 & _).
      eexists o1, _, _, post. rewrite H1, Hidx, alter_middle.
      split; [|split; [done|apply Z.le_max_r]].
      replace (set_nb_physical_lines new (set_text t e)) with (set_text t e);
        [by rewrite Heq|].
      rewrite Heq. by destruct e.
    - destruct (print_line_in_resize key t (session w) pre e post new
                  Hlook Hidx Hh Hne Hpost) as (o1 & H1 & _).
      eexists o1, _, _, _. split; [exact H1|].
      split; [apply map_line_obj_renumber|].
      destruct (nb_physical_lines e <? new); lia. }
  set (e1 := set_nb_physical_lines new (set_text t e)) in *.
  set (s1 := mkSession lc1 (pre ++ e1 :: post1) cl1
               (available_width (session w))) in *.
  (* the second call *)
  assert (Hlook1 : lookup_entry key (lines_index s1) = Some (length pre, e1)).
  { simpl. apply (lookup_entry_middle key pre e post); [|done|done].
    by rewrite <- Hidx. }
  destruct (print_line_in_same_height key t s1 _ e1 Hlook1 Hh)
    as (o2 & H2 & Ho2).
  eexists (set_session s1 w), o1, _, o2. split; [|split].
  - rewrite (print_line_run str_format key w l Hl), Ht.
    by apply in_session_run.
  - rewrite (print_line_run str_format key (set_session s1 w) l Hl), Ht.
    apply in_session_run. exact H2.
  - simpl. rewrite alter_middle.
    split; [done|]. split; [lia|].
    rewrite <- printed_texts_ink, Ho2, printed_texts_app,
      printed_texts_erase_rows. done.
Qed.

End Resize.

Lemma hello_world_growing_ok :
  session_ok (session hello_world_growing) ∧
  contiguous (lines_index (session hello_world_growing)).
Proof.
  split; [split; [repeat constructor|split; vm_compute; reflexivity]|].
  apply (contiguous_from_contiguous 0). simpl. tauto.
Qed.

Lemma hello_world_shrinking_ok :
  session_ok (session hello_world_shrinking) ∧
  contiguous (lines_index (session hello_world_shrinking)) ∧
  tight (session hello_world_shrinking).
Proof.
  split; [split; [repeat constructor|split; vm_compute; reflexivity]|].
  split; [|reflexivity].
  apply (contiguous_from_contiguous 0). simpl. tauto.
Qed.

(** The first line grows to three rows and the second line goes from
    row 1 to row 3. *)
Lemma update_shifts_following_entries_witness :
  ∃ w' o,
    print_line named_format 0 hello_world_growing = (inr tt, w', o) ∧
    lines_index (session w')
      = [] ++ set_nb_physical_lines 3
                (set_text (repeat_char "x" 200) (mkEntry 0 "Hello" 0 1))
              :: map (shift_row (3 - 1)) [mkEntry 1 "World" 1 1] ∧
    (0 < 3 - 1 → lines_counter (session w') = 3 + (3 - 1) + 1) ∧
    (3 - 1 < 0 →
       lines_counter (session w') <= 3 + (3 - 1) ∧
       tight (session w') ∧
       current_line (session w') = lines_counter (session w') - 1 ∧
       world_after end_ (session w') = session w').
Proof.
  refine (update_shifts_following_entries named_format hello_world_growing 0
            (mkLine (repeat_char "x" 200) ∅) (repeat_char "x" 200)
            [] (mkEntry 0 "Hello" 0 1) [mkEntry 1 "World" 1 1] 3
            _ _ _ _ _ _ _ _);
    try (vm_compute; reflexivity).
  - apply hello_world_growing_ok.
  - apply hello_world_growing_ok.
  - vm_compute. discriminate.
Defined.

(** The first line is one row again. *)
Lemma update_not_growing_keeps_counter_tight_witness :
  ∃ w' o,
    print_line named_format 0 hello_world_shrinking = (inr tt, w', o) ∧
    session_ok (session w') ∧
    tight (session w') ∧
    contiguous (lines_index (session w')).
Proof.
  refine (update_not_growing_keeps_counter_tight named_format
            hello_world_shrinking 0 (mkLine "Hello" ∅) "Hello" 0
            (mkEntry 0 (repeat_char "x" 200) 0 3) 1 _ _ _ _ _ _ _ _);
    try (vm_compute; reflexivity); try apply hello_world_shrinking_ok.
  vm_compute. discriminate.
Defined.

Lemma print_line_twice_is_once_witness :
  ∃ w1 o1 w2 o2,
    print_line named_format 0 hello_world_growing = (inr tt, w1, o1) ∧
    print_line named_format 0 w1 = (inr tt, w2, o2) ∧
    lines_index (session w2) = lines_index (session w1) ∧
    lines_counter (session w2) = lines_counter (session w1) ∧
    printed_texts o2 = [(0, repeat_char "x" 200)].
Proof.
  refine (print_line_twice_is_once named_format hello_world_growing 0
            (mkLine (repeat_char "x" 200) ∅) (repeat_char "x" 200) 0
            (mkEntry 0 "Hello" 0 1) _ _ _ _ _);
    try (vm_compute; reflexivity).
  - vm_compute. discriminate.
  - apply hello_world_growing_ok.
Defined.

(** ** Lines one after the other *)

Lemma stack_entries_contiguous (width : Z) (key : nat) (row : Z)
    (ts : list string) :
  contiguous_from row (stack_entries width key row ts).
Proof.
  revert key row. induction ts as [|t ts IH]; intros key row; simpl; [done|].
  split; [done|]. apply IH.
Qed.

Lemma stack_entries_one_row (width : Z) (key : nat) (row : Z)
    (ts : list string) :
  Forall (λ t, height width t = 1) ts →
  map line_number (stack_entries width key row ts)
    = seqZ row (Z.of_nat (length ts)) ∧
  total_height (stack_entries width key row ts) = Z.of_nat (length ts).
Proof.
  intros H. revert key row. induction H as [|t ts Ht _ IH]; intros key row.
  - done.
  - cbn [stack_entries map total_height foldr length].
    fold (total_height (stack_entries width (S key) (row + height width t) ts)).
    destruct (IH (S key) (row + height width t)) as [IH1 IH2].
    rewrite IH1, IH2, Ht. simpl.
    rewrite (seqZ_cons row) by lia. split; [|lia].
    f_equal. f_equal; lia.
Qed.

Lemma height_one (width : Z) (t : string) :
  1 <= width → len t <= width → height width t = 1.
Proof.
  intros Hw Hlen. unfold height.
  rewrite nb_physical_lines_of_nonzero by lia.
  pose proof (ceiling_quotient_bounds (len t) width ltac:(lia)).
  apply Z.max_l. nia.
Qed.

Section Lines.

Context {value : Type}.
Variable str_format : string → gmap string value → exn + string.

Lemma line_plain_run (w : world value) (t : string) :
  available_width (session w) ≠ 0 →
  let s := session w in
  let h := height (available_width s) t in
  ∃ o,
    call (line str_format t ∅) w
    = (inr tt,
       mkWorld (handles w ++ [mkLine t ∅])
         (mkSession (lines_counter s + h)
            (lines_index s ++ [mkEntry (length (handles w)) t
                                 (lines_counter s - 1) h])
            (lines_counter s - 1 + h) (available_width s)), o).
Proof.
  intros Hw s h.
  assert (Hh : nb_physical_lines_of (available_width s) (len t) = inr h).
  { unfold h, height. by rewrite nb_physical_lines_of_nonzero. }
  destruct (line_in_run (length (handles w)) t s h Hh) as (o & H & _).
  exists ((o ++ []) ++ []).
  unfold call. eapply bind_run; [|reflexivity].
  rewrite (line_made str_format t ∅ w) by apply lookup_empty.
  rewrite bind_modify.
  eapply bind_run; [|reflexivity].
  unfold Line_text. simpl. rewrite decide_True by done.
  apply in_session_run. exact H.
Qed.

Lemma lines_run (ts : list string) (w : world value) :
  available_width (session w) ≠ 0 →
  let s := session w in
  let stack := stack_entries (available_width s) (length (handles w))
                 (lines_counter s - 1) ts in
  ∃ o,
    run_all (map (λ t, call (line str_format t ∅)) ts) w
    = (inr tt,
       mkWorld (handles w ++ map (λ t, mkLine t ∅) ts)
         (mkSession (lines_counter s + total_height stack)
            (lines_index s ++ stack)
            (match ts with
             | [] => current_line s
             | _ => lines_counter s + total_height stack - 1
             end) (available_width s)), o).
Proof.
  revert w. induction ts as [|t ts IH]; intros w Hw s stack.
  - exists []. unfold run_all. simpl. unfold ret. do 2 f_equal.
    subst stack s. simpl. rewrite !app_nil_r, Z.add_0_r.
    by destruct w as [? []].
  - destruct (line_plain_run w t Hw) as (o1 & H1).
    set (w1 := mkWorld _ _) in H1.
    destruct (IH w1 Hw) as (o2 & H2).
    exists (o1 ++ o2). unfold run_all in *. simpl.
    eapply bind_run; [exact H1|]. rewrite H2.
    subst stack s w1. simpl. rewrite length_app. simpl.
    rewrite <- !app_assoc. simpl.
    replace (length (handles w) + 1)%nat with (S (length (handles w))) by lia.
    set (h := height (available_width (session w)) t).
    replace (lines_counter (session w) + h - 1)
      with (lines_counter (session w) - 1 + h) by lia.
    set (stack := stack_entries _ _ _ ts).
    do 3 f_equal. f_equal; [lia|].
    destruct ts; simpl; [|lia].
    subst stack. simpl. lia.
Qed.

(** X21. Lines made one after the other, each from a text without
    keyword arguments, on a terminal of a width other than 0: all the
    calls return, the new entries follow those there were, in the order
    of the calls, each with its text and the height of its text, the
    first on row [lines_counter - 1] and each of the others on the row
    after the one before; [lines_counter] grows by the sum of the
    heights. *)
Theorem lines_stack_one_after_the_other (ts : list string)
    (w : world value) :
  available_width (session w) ≠ 0 →
  let s := session w in
  let stack := stack_entries (available_width s) (length (handles w))
                 (lines_counter s - 1) ts in
  let w' := world_after
              (run_all (map (λ t, call (line str_format t ∅)) ts)) w in
  (run_all (map (λ t, call (line str_format t ∅)) ts) w).1.1 = inr tt ∧
  handles w' = handles w ++ map (λ t, mkLine t ∅) ts ∧
  lines_index (session w') = lines_index s ++ stack ∧
  contiguous_from (lines_counter s - 1) stack ∧
  lines_counter (session w') = lines_counter s + total_height stack.
Proof.
  intros Hw s stack w'. destruct (lines_run ts w Hw) as (o & H).
  subst w'. unfold world_after. rewrite H. simpl.
  repeat split; try done. apply stack_entries_contiguous.
Qed.

(** X22. [n] lines made on a new session, each from a text that fits in
    the width of the terminal, are on the rows 0 to [n - 1], in the
    order they were made, each one row high, and [lines_counter] is
    [n + 1]. *)
Theorem one_row_lines_are_on_successive_rows (ts : list string) (width : Z) :
  1 <= width →
  Forall (λ t, len t <= width) ts →
  let w' := world_after
              (run_all (map (λ t, call (line str_format t ∅)) ts))
              (mkWorld [] (LinesSession_init width)) in
  map text (lines_index (session w')) = ts ∧
  map line_number (lines_index (session w'))
    = seqZ 0 (Z.of_nat (length ts)) ∧
  Forall (λ e, nb_physical_lines e = 1) (lines_index (session w')) ∧
  lines_counter (session w') = Z.of_nat (length ts) + 1.
Proof.
  intros Hw Hts w'.
  destruct (lines_run ts (mkWorld [] (LinesSession_init width)))
    as (o & H); [simpl; lia|].
  subst w'. unfold world_after. rewrite H. simpl. clear H.
  change (1 - 1) with 0.
  assert (Hone : Forall (λ t, height width t = 1) ts).
  { eapply Forall_impl; [exact Hts|]. intros t Ht. by apply height_one. }
  destruct (stack_entries_one_row width 0 0 ts Hone) as [Hrows Htot].
  split; [|split; [done|split; [|lia]]].
  - clear Hrows Htot Hts. generalize 0%nat 0.
    induction Hone as [|t ts Ht _ IH]; intros key row; simpl; [done|].
    by rewrite IH.
  - clear Hrows Htot Hts. generalize 0%nat 0.
    induction Hone as [|t ts Ht _ IH]; intros key row; simpl;
      constructor; [done|apply IH].
Qed.

End Lines.

Lemma lines_stack_one_after_the_other_witness :
  let ts := ["Hello"; repeat_char "x" 200; "World"]%string in
  let w := new_world 80 in
  let stack := stack_entries 80 0 (1 - 1) ts in
  let w' := world_after
              (run_all (map (λ t, call (line named_format t ∅)) ts)) w in
  (run_all (map (λ t, call (line named_format t ∅)) ts) w).1.1 = inr tt ∧
  handles w' = [] ++ map (λ t, mkLine t ∅) ts ∧
  lines_index (session w') = [] ++ stack ∧
  contiguous_from (1 - 1) stack ∧
  lines_counter (session w') = 1 + total_height stack.
Proof.
  intros ts w.
  refine (lines_stack_one_after_the_other named_format ts w _).
  vm_compute. discriminate.
Defined.

(** The lines of the example [two_lines_example]. *)
Lemma one_row_lines_are_on_successive_rows_witness :
  let ts := ["Hello World!"; "Everything is Awesome"]%string in
  let w' := world_after
              (run_all (map (λ t, call (line named_format t ∅)) ts))
              (mkWorld [] (LinesSession_init 80)) in
  map text (lines_index (session w')) = ts ∧
  map line_number (lines_index (session w')) = seqZ 0 (Z.of_nat (length ts)) ∧
  Forall (λ e, nb_physical_lines e = 1) (lines_index (session w')) ∧
  lines_counter (session w') = Z.of_nat (length ts) + 1.
Proof.
  intros ts.
  refine (one_row_lines_are_on_successive_rows named_format ts 80 _ _).
  - lia.
  - repeat constructor; vm_compute; discriminate.
Defined.

(** ** What a resizing update prints *)

Lemma range_app (a b c : Z) :
  a <= b → b <= c → range a b ++ range b c = range a c.
Proof.
  intros Hab Hbc. unfold range.
  replace (c - a) with ((b - a) + (c - b)) by lia.
  rewrite seqZ_app by lia. do 2 f_equal. lia.
Qed.

Lemma printed_texts_entries (l : list _LineEntry) :
  printed_texts (flat_map entry_ink l)
  = map (λ e, (line_number e, text e)) l.
Proof.
  induction l as [|e l IH]; [done|]. simpl.
  rewrite printed_texts_app. unfold entry_ink at 1.
  rewrite printed_texts_app, printed_texts_erase_rows, IH. done.
Qed.

Lemma erased_rows_entries (width row : Z) (l : list _LineEntry) :
  Forall (entry_ok width) l →
  erased_rows (flat_map entry_ink (renumber row l))
  = range row (row + total_height l).
Proof.
  intros Hok. revert row. induction Hok as [|e l He Hok IH]; intros row.
  - simpl. unfold range. by rewrite seqZ_nil by lia.
  - simpl. rewrite erased_rows_app. unfold entry_ink at 1.
    rewrite erased_rows_app, erased_rows_erase_rows, IH. simpl.
    rewrite app_nil_r. unfold entry_end. simpl.
    apply nb_physical_lines_of_ge_1 in He as [He _].
    pose proof (total_height_nonneg _ _ Hok).
    rewrite range_app by lia. f_equal. lia.
Qed.

Section Cascade.

Context {value : Type}.
Variable str_format : string → gmap string value → exn + string.

(** C7, as the code has it. When [print_line] reprints a registered
    line whose new text has height [new], what it prints starts with the
    empty lines of the extension if the line grows (none otherwise);
    then the print step erases the [new] rows from the row of the entry
    on, no more, and writes the text at this row. Nothing follows if the
    height is the one the entry had. If it is another one, in a
    well-formed session, what follows is the reprint of the entries
    after the line, each at the row it now has, and then, if the line
    shrinks, the empty lines of the truncation. When the line shrinks, in
    a well-formed session whose entries do not overlap, the rows erased
    after the text is written are those from the row after the new text
    to the row [lines_counter - 2]: among them all the rows of the old
    text that the print step left. *)
Theorem print_step_erases_rows_of_new_height
    (w : world value) (key : nat) (l : Line value) (t : string) pos e new :
  handles w !! key = Some l →
  Line_text str_format l = inr t →
  lookup_entry key (lines_index (session w)) = Some (pos, e) →
  nb_physical_lines_of (available_width (session w)) (len t) = inr new →
  let s := session w in
  let old := nb_physical_lines e in
  let row := line_number e in
  let post := drop (S pos) (lines_index s) in
  let ending := row + new + total_height post in
  ∃ rest,
    ink (output_of (print_line str_format key) w)
    = (if old <? new
       then blank_rows (range (lines_counter s - 1)
                          (lines_counter s + (new - old)))
       else [])
      ++ erase_rows (range row (row + new))
      ++ (row, Text t) :: rest ∧
    (new = old → rest = []) ∧
    (session_ok s → new ≠ old →
     rest = flat_map entry_ink (renumber (row + new) post)
            ++ (if new <? old
                then blank_rows
                       (range ending
                          (Z.max (lines_counter s) (ending + 1) - 1))
                else [])) ∧
    (session_ok s → no_overlap (lines_index s) → new < old →
     erased_rows rest = range (row + new) (lines_counter s - 1) ∧
     ∀ r, row + new <= r < row + old → r ∈ erased_rows rest).
Proof.
  intros Hl Ht Hlook Hh s old row post ending. subst s.
  destruct (print_line_in_output key t (session w) pos e new Hlook Hh)
    as (rest & Hrest).
  destruct (lookup_entry_split _ _ _ _ Hlook) as (pre & post0 & Hidx & Hpos).
  assert (Hpost0 : post = post0).
  { unfold post. rewrite Hidx, Hpos. apply drop_middle. }
  assert (Hresize : session_ok (session w) → new ≠ old →
            rest = flat_map entry_ink (renumber (row + new) post)
                   ++ (if new <? old
                       then blank_rows
                              (range ending
                                 (Z.max (lines_counter (session w)) (ending + 1) - 1))
                       else [])).
  { intros (Hall & _ & _) Hne.
    rewrite Hidx in Hall. apply Forall_app in Hall as [_ Hall].
    apply Forall_cons in Hall as [_ Hok].
    subst pos.
    destruct (print_line_in_resize key t (session w) pre e post0 new
                Hlook Hidx Hh Hne Hok) as (o & H & Ho).
    rewrite H in Hrest. simpl in Hrest. rewrite Hrest in Ho.
    apply app_inv_head in Ho. rewrite <- !app_assoc in Ho.
    apply app_inv_head in Ho. simpl in Ho. injection Ho as Ho.
    unfold ending. by rewrite Hpost0. }
  exists rest. split; [|split; [|split; [exact Hresize|]]].
  - unfold output_of.
    by rewrite (print_line_run str_format key w l Hl), Ht, in_session_out.
  - intros Heq. rewrite Heq in Hh.
    destruct (print_line_in_same_height key t (session w) pos e Hlook Hh)
      as (o & H & Ho).
    rewrite H in Hrest. simpl in Hrest. rewrite Hrest in Ho.
    rewrite Heq, Z.ltb_irrefl in Ho. simpl in Ho.
    apply app_inv_head in Ho. by injection Ho.
  - intros Hok Hno Hlt.
    rewrite (Hresize Hok) by (unfold old in Hlt; lia).
    destruct Hok as (Hall & _ & Hend).
    rewrite Hidx in Hall, Hend, Hno.
    apply Forall_app in Hall as [_ Hall].
    apply Forall_cons in Hall as [_ Hok].
    apply no_overlap_middle in Hno as (_ & _ & _ & Hord).
    rewrite chain_end_middle in Hend.
    pose proof (ordered_from_chain_end _ _ _ Hok Hord) as Hle.
    pose proof (total_height_nonneg _ _ Hok) as Htot.
    pose proof (nb_physical_lines_of_ge_1 _ _ _ Hh) as [Hnew _].
    unfold entry_end in *. fold old row in Hle, Hend.
    assert (He : erased_rows
                   (flat_map entry_ink (renumber (row + new) post)
                    ++ (if new <? old
                        then blank_rows
                               (range ending
                                  (Z.max (lines_counter (session w)) (ending + 1) - 1))
                        else []))
                 = range (row + new) (lines_counter (session w) - 1)).
    { assert (Hending : ending = row + new + total_height post0).
      { unfold ending. by rewrite Hpost0. }
      destruct (Z.ltb_spec new old); [|lia].
      rewrite erased_rows_app, erased_rows_blank_rows, Hpost0.
      rewrite (erased_rows_entries (available_width (session w))) by done.
      rewrite Hending. rewrite Z.max_l by lia.
      apply range_app; lia. }
    split; [exact He|]. intros r Hr. rewrite He.
    unfold range. rewrite elem_of_seqZ. lia.
Qed.

(** X23. When [print_line] changes the height of a line, the texts it
    writes are, in this order: the empty lines of the extension if the
    line grows; the new text at the row of the line; the text of each
    entry after it, once, in the order of the chain, at the row the
    entry now has; and the empty lines of the truncation if the line
    shrinks. No entry before the line is written again. *)
Theorem resize_reprints_following_entries_once (w : world value) (key : nat)
    (l : Line value) (t : string) pre e post new :
  session_ok (session w) →
  handles w !! key = Some l →
  Line_text str_format l = inr t →
  lookup_entry key (lines_index (session w)) = Some (length pre, e) →
  lines_index (session w) = pre ++ e :: post →
  nb_physical_lines_of (available_width (session w)) (len t) = inr new →
  new ≠ nb_physical_lines e →
  let old := nb_physical_lines e in
  let lc := lines_counter (session w) in
  let ending := line_number e + new + total_height post in
  ∃ w' o post',
    print_line str_format key w = (inr tt, w', o) ∧
    lines_index (session w')
      = pre ++ set_nb_physical_lines new (set_text t e) :: post' ∧
    post' = renumber (line_number e + new) post ∧
    printed_texts o
      = map (λ r, (r, EmptyString))
          (if old <? new then range (lc - 1) (lc + (new - old)) else [])
        ++ (line_number e, t)
        :: map (λ e', (line_number e', text e')) post'
        ++ map (λ r, (r, EmptyString))
             (if new <? old
              then range ending (Z.max lc (ending + 1) - 1)
              else []).
Proof.
  intros (Hall & _ & _) Hl Ht Hlook Hidx Hh Hne old lc ending.
  rewrite Hidx in Hall. apply Forall_app in Hall as [_ Hall].
  apply Forall_cons in Hall as [_ Hpost].
  destruct (print_line_in_resize key t (session w) pre e post new
              Hlook Hidx Hh Hne Hpost) as (o & H & Ho).
  eexists (set_session _ w), o, _. split.
  { rewrite (print_line_run str_format key w l Hl), Ht.
    apply in_session_run. exact H. }
  simpl. split; [done|]. split; [done|].
  rewrite <- printed_texts_ink, Ho. fold old lc ending.
  rewrite !printed_texts_app, printed_texts_erase_rows, printed_texts_entries.
  simpl. f_equal.
  - destruct (old <? new); [apply printed_texts_blank_rows|done].
  - do 2 f_equal.
    destruct (new <? old); [apply printed_texts_blank_rows|done].
Qed.

(** X24. When [print_line] makes a line lower, in a well-formed session
    whose entries do not overlap, the rows it erases are, each once and
    from top to bottom, all the rows from the row of the line to the row
    before the last row [lines_counter - 1]: the rows of the new text,
    those of the entries after it, and the rows left over. *)
Theorem shrinking_update_erases_down_to_last_row (w : world value)
    (key : nat) (l : Line value) (t : string) pre e post new :
  session_ok (session w) →
  no_overlap (lines_index (session w)) →
  handles w !! key = Some l →
  Line_text str_format l = inr t →
  lookup_entry key (lines_index (session w)) = Some (length pre, e) →
  lines_index (session w) = pre ++ e :: post →
  nb_physical_lines_of (available_width (session w)) (len t) = inr new →
  new < nb_physical_lines e →
  ∃ w' o,
    print_line str_format key w = (inr tt, w', o) ∧
    erased_rows o
      = range (line_number e) (lines_counter (session w) - 1).
Proof.
  intros (Hall & _ & Hend) Hno Hl Ht Hlook Hidx Hh Hlt.
  rewrite Hidx in Hall, Hend, Hno.
  apply Forall_app in Hall as [_ Hall].
  apply Forall_cons in Hall as [_ Hpost].
  apply no_overlap_middle in Hno as (_ & _ & _ & Hord).
  rewrite chain_end_middle in Hend.
  pose proof (ordered_from_chain_end _ _ _ Hpost Hord) as Hle.
  pose proof (total_height_nonneg _ _ Hpost) as Htot.
  pose proof (nb_physical_lines_of_ge_1 _ _ _ Hh) as [Hnew _].
  unfold entry_end in *.
  destruct (print_line_in_resize key t (session w) pre e post new
              Hlook Hidx Hh ltac:(lia) Hpost) as (o & H & Ho).
  eexists (set_session _ w), o. split.
  { rewrite (print_line_run str_format key w l Hl), Ht.
    apply in_session_run. exact H. }
  rewrite <- erased_rows_ink, Ho.
  destruct (Z.ltb_spec (nb_physical_lines e) new); [lia|].
  destruct (Z.ltb_spec new (nb_physical_lines e)); [|lia].
  simpl. rewrite !erased_rows_app, erased_rows_erase_rows.
  rewrite (erased_rows_entries (available_width (session w))) by done.
  rewrite erased_rows_blank_rows. simpl. rewrite app_nil_r.
  rewrite Z.max_l by lia.
  rewrite range_app by lia. rewrite range_app by lia. done.
Qed.

End Cascade.

(** The line of three rows at row 0 is given the text "Hello", of one
    row: the print step erases row 0 only; the rows 1 and 2 are erased
    after it, when "World" is printed again at row 1 and when the
    truncation empties the rows 2 and 3. *)
Lemma print_step_erases_rows_of_new_height_witness :
  let w := hello_world_shrinking in
  ∃ rest,
    ink (output_of (print_line named_format 0) w)
    = [] ++ erase_rows (range 0 (0 + 1)) ++ (0, Text "Hello") :: rest ∧
    rest = flat_map entry_ink [mkEntry 1 "World" 1 1]
           ++ blank_rows (range 2 4) ∧
    erased_rows rest = range (0 + 1) (5 - 1) ∧
    ∀ r, 0 + 1 <= r < 0 + 3 → r ∈ erased_rows rest.
Proof.
  intros w.
  destruct (print_step_erases_rows_of_new_height named_format w 0
              (mkLine "Hello" ∅) "Hello" 0
              (mkEntry 0 (repeat_char "x" 200) 0 3) 1)
    as (rest & Hink & _ & Hrest & Herased); try (vm_compute; reflexivity).
  assert (Hok : session_ok (session w)) by apply hello_world_shrinking_ok.
  assert (Hno : no_overlap (lines_index (session w))).
  { apply (ordered_from_no_overlap 0). simpl. unfold entry_end. simpl. lia. }
  exists rest. split; [exact Hink|]. split.
  - apply (Hrest Hok). simpl. lia.
  - apply (Herased Hok Hno). simpl. lia.
Defined.

Lemma resize_reprints_following_entries_once_witness :
  ∃ w' o post',
    print_line named_format 0 hello_world_growing = (inr tt, w', o) ∧
    lines_index (session w')
      = [] ++ set_nb_physical_lines 3
                (set_text (repeat_char "x" 200) (mkEntry 0 "Hello" 0 1))
              :: post' ∧
    post' = renumber (0 + 3) [mkEntry 1 "World" 1 1] ∧
    printed_texts o
      = map (λ r, (r, EmptyString))
          (if 1 <? 3 then range (3 - 1) (3 + (3 - 1)) else [])
        ++ (0, repeat_char "x" 200)
        :: map (λ e', (line_number e', text e')) post'
        ++ map (λ r, (r, EmptyString))
             (if 3 <? 1
              then range (0 + 3 + 1) (Z.max 3 (0 + 3 + 1 + 1) - 1)
              else []).
Proof.
  refine (resize_reprints_following_entries_once named_format
            hello_world_growing 0 (mkLine (repeat_char "x" 200) ∅)
            (repeat_char "x" 200) [] (mkEntry 0 "Hello" 0 1)
            [mkEntry 1 "World" 1 1] 3 _ _ _ _ _ _ _);
    try (vm_compute; reflexivity).
  - apply hello_world_growing_ok.
  - vm_compute. discriminate.
Defined.

Lemma shrinking_update_erases_down_to_last_row_witness :
  ∃ w' o,
    print_line named_format 0 hello_world_shrinking = (inr tt, w', o) ∧
    erased_rows o = range 0 (5 - 1).
Proof.
  refine (shrinking_update_erases_down_to_last_row named_format
            hello_world_shrinking 0 (mkLine "Hello" ∅) "Hello" []
            (mkEntry 0 (repeat_char "x" 200) 0 3) [mkEntry 1 "World" 3 1] 1
            _ _ _ _ _ _ _ _);
    try (vm_compute; reflexivity).
  - apply hello_world_shrinking_ok.
  - apply (ordered_from_no_overlap 0). simpl. unfold entry_end. simpl. lia.
Defined.

(** ** Nothing is printed above the first row *)

Lemma stays_below_top_refl (s : LinesSession) : stays_below_top s [] s.
Proof. intros H. split; [done|constructor]. Qed.

Lemma stays_below_top_trans s1 o1 s2 o2 s3 :
  stays_below_top s1 o1 s2 → stays_below_top s2 o2 s3 →
  stays_below_top s1 (o1 ++ o2) s3.
Proof.
  intros H1 H2 Hinv. destruct (H1 Hinv) as [Hinv2 Ho1].
  destruct (H2 Hinv2) as [Hinv3 Ho2]. split; [done|].
  apply Forall_app. by split.
Qed.

Lemma counter_grows_refl (s : LinesSession) : counter_grows s [] s.
Proof. split; [lia|done]. Qed.

Lemma counter_grows_trans s1 o1 s2 o2 s3 :
  counter_grows s1 o1 s2 → counter_grows s2 o2 s3 →
  counter_grows s1 (o1 ++ o2) s3.
Proof. intros [H1 I1] [H2 I2]. split; [lia|congruence]. Qed.

(** A property that starts from an assumption on the first state can be
    proved under this assumption. *)
Lemma holds_below_top_assume {A} (m : M LinesSession A) (s : LinesSession) :
  (rows_nonneg s → holds stays_below_top m s) → holds stays_below_top m s.
Proof. intros H Hinv. by apply H. Qed.

Lemma counter_grows_set_cursor (n : Z) (s : LinesSession) :
  holds counter_grows (_set_cursor_to_line_number n) s.
Proof.
  destruct (set_cursor_run n s) as (o & H & _).
  unfold holds, output_of, world_after. rewrite H.
  split; simpl; [lia|done].
Qed.

Lemma counter_grows_print_at_line (t : string) (n : Z) (s : LinesSession) :
  holds counter_grows (_print_at_line t n) s.
Proof.
  unfold holds, output_of, world_after.
  destruct (nb_physical_lines_of (available_width s) (len t)) as [err|h] eqn:Hh.
  - unfold _print_at_line, bind. rewrite compute_run, Hh. simpl.
    apply counter_grows_refl.
  - destruct (print_at_line_run t n h s Hh) as (o & H & _).
    rewrite H. split; simpl; [lia|done].
Qed.

Lemma counter_grows_blank_loop (l : list Z) (s : LinesSession) :
  holds counter_grows (for_each l (λ n, _print_at_line "" n)) s.
Proof.
  apply (holds_for_each _ counter_grows_refl counter_grows_trans).
  intros n _ s1. apply counter_grows_print_at_line.
Qed.

Lemma below_top_set_cursor (n : Z) (s : LinesSession) :
  0 <= n → holds stays_below_top (_set_cursor_to_line_number n) s.
Proof.
  intros Hn (Hcl & Hlc & Hidx).
  unfold output_of, world_after, _set_cursor_to_line_number.
  rewrite bind_gets. unfold bind, print, modify.
  destruct (Z.eqb_spec (n - current_line s) 0);
    [|destruct (Z.ltb_spec 0 (n - current_line s))];
    (split; [by repeat split|]);
    repeat constructor; simpl; lia.
Qed.

Lemma below_top_print (c : term_out) (s : LinesSession) :
  (∀ n, c ≠ CursorUp n) → holds stays_below_top (print c) s.
Proof.
  intros Hc Hinv. split; [done|].
  unfold output_of, print. simpl. repeat constructor; simpl.
  - apply Hinv.
  - destruct c; try done. by destruct (Hc n).
Qed.

Lemma below_top_print_at_line (t : string) (n : Z) (s : LinesSession) :
  0 <= n → holds stays_below_top (_print_at_line t n) s.
Proof.
  intros Hn. unfold _print_at_line.
  apply (holds_bind _ stays_below_top_trans).
  { unfold holds, output_of, world_after. rewrite compute_run.
    apply stays_below_top_refl. }
  intros size s1 o1 Hc. rewrite compute_run in Hc.
  injection Hc as Hsize Hs1 _. subst s1.
  apply nb_physical_lines_of_ge_1 in Hsize as [Hsize _].
  apply (holds_bind _ stays_below_top_trans).
  { apply (holds_for_each _ stays_below_top_refl stays_below_top_trans).
    intros p Hp s2.
    apply elem_of_seqZ in Hp.
    apply (holds_bind _ stays_below_top_trans);
      [apply below_top_set_cursor; lia|].
    intros _ s3 _ _. by apply below_top_print. }
  intros _ s2 _ _.
  apply (holds_bind _ stays_below_top_trans);
    [by apply below_top_set_cursor|].
  intros _ s3 _ _.
  apply (holds_bind _ stays_below_top_trans); [by apply below_top_print|].
  intros _ s4 _ _.
  intros (Hcl & Hlc & Hidx).
  unfold output_of, world_after, bind, modify, gets. simpl.
  split; [|constructor]. repeat split; simpl; [lia|lia|done].
Qed.

Lemma below_top_blank_loop (l : list Z) (s : LinesSession) :
  Forall (λ n, 0 <= n) l →
  holds stays_below_top (for_each l (λ n, _print_at_line "" n)) s.
Proof.
  intros Hl.
  apply (holds_for_each _ stays_below_top_refl stays_below_top_trans).
  intros n Hn s1. apply below_top_print_at_line.
  by apply (proj1 (Forall_forall _ _) Hl).
Qed.

Lemma range_nonneg (a b : Z) : 0 <= a → Forall (λ n, 0 <= n) (range a b).
Proof.
  intros Ha. apply Forall_forall. intros n Hn.
  apply elem_of_seqZ in Hn. lia.
Qed.

Lemma below_top_extend (size : Z) (s : LinesSession) :
  holds stays_below_top (_extend size) s.
Proof.
  apply holds_below_top_assume. intros (_ & Hlc & _).
  unfold _extend. apply holds_gets, below_top_blank_loop, range_nonneg. lia.
Qed.

Lemma below_top_truncate (s : LinesSession) :
  holds stays_below_top _truncate s.
Proof.
  apply holds_below_top_assume. intros (Hcl & Hlc & _).
  unfold _truncate. do 2 apply holds_gets.
  apply (holds_bind _ stays_below_top_trans).
  { by apply below_top_blank_loop, range_nonneg. }
  intros [] s1 o1 H1.
  pose proof (counter_grows_blank_loop
                (range (current_line s) (lines_counter s - 1)) s) as [Hg1 _].
  unfold world_after in Hg1. rewrite H1 in Hg1. simpl in Hg1.
  apply (holds_bind _ stays_below_top_trans);
    [by apply below_top_set_cursor|].
  intros [] s2 o2 H2.
  pose proof (counter_grows_set_cursor (current_line s) s1) as [Hg2 _].
  unfold world_after in Hg2. rewrite H2 in Hg2. simpl in Hg2.
  apply holds_gets. intros (Hcl2 & Hlc2 & Hidx2).
  unfold output_of, world_after, modify. simpl.
  split; [|constructor]. repeat split; simpl; [done|lia|done].
Qed.

Lemma below_top_alter (f : _LineEntry → _LineEntry) (i : nat)
    (s : LinesSession) :
  (∀ e, 0 <= line_number e ∧ 0 <= nb_physical_lines e →
        0 <= line_number (f e) ∧ 0 <= nb_physical_lines (f e)) →
  holds stays_below_top
    (modify (λ s, set_lines_index (alter f i (lines_index s)) s)) s.
Proof.
  intros Hf (Hcl & Hlc & Hidx).
  unfold output_of, world_after, modify. simpl.
  split; [|constructor]. repeat split; simpl; [done|done|].
  apply Forall_alter; [done|]. intros e _. apply Hf.
Qed.

Lemma below_top_shift_following (chain : list _LineEntry) (pos : nat)
    (cur : Z) (s : LinesSession) :
  0 <= cur → Forall (λ e, 0 <= nb_physical_lines e) chain →
  holds stays_below_top (shift_following chain pos cur) s.
Proof.
  intros Hcur Hchain. revert pos cur s Hcur.
  induction Hchain as [|e rest He _ IH]; intros pos cur s Hcur; simpl.
  - apply stays_below_top_refl.
  - apply (holds_bind _ stays_below_top_trans).
    { apply below_top_alter. intros e0 [_ H0]. simpl. split; [lia|done]. }
    intros _ s1 _ _.
    apply (holds_bind _ stays_below_top_trans);
      [by apply below_top_print_at_line|].
    intros _ s2 _ _. apply IH. lia.
Qed.

Lemma below_top_print_line_in (key : nat) (rendered : exn + string)
    (s : LinesSession) :
  holds stays_below_top (print_line_in key rendered) s.
Proof.
  apply holds_below_top_assume. intros (Hcl & Hlc & Hidx).
  unfold print_line_in. apply holds_gets.
  destruct (lookup_entry key (lines_index s)) as [[pos e]|] eqn:Hlook;
    [|apply stays_below_top_refl].
  destruct (lookup_entry_Some _ _ _ _ Hlook) as [Hpos _].
  pose proof (proj1 (Forall_lookup _ _) Hidx pos e Hpos) as [Hrow Hnb].
  assert (Hchain : Forall (λ e, 0 <= nb_physical_lines e)
                     (drop (S pos) (lines_index s))).
  { apply Forall_drop. eapply Forall_impl; [exact Hidx|]. by intros ? [_ ?]. }
  apply (holds_bind _ stays_below_top_trans);
    [apply (holds_of_result _ stays_below_top_refl)|].
  intros t s1 _ _.
  apply (holds_bind _ stays_below_top_trans).
  { by apply below_top_alter. }
  intros _ s2 _ _.
  apply (holds_bind _ stays_below_top_trans).
  { unfold holds, output_of, world_after. rewrite compute_run.
    apply stays_below_top_refl. }
  intros new s3 o3 Hc. rewrite compute_run in Hc.
  injection Hc as Hnew _ _.
  apply nb_physical_lines_of_ge_1 in Hnew as [Hnew _].
  apply (holds_bind _ stays_below_top_trans).
  { apply (holds_when _ stays_below_top_refl). intros _.
    apply below_top_extend. }
  intros _ s4 _ _.
  apply (holds_bind _ stays_below_top_trans);
    [by apply below_top_print_at_line|].
  intros _ s5 _ _.
  apply (holds_bind _ stays_below_top_trans).
  { apply (holds_when _ stays_below_top_refl). intros _.
    apply (holds_bind _ stays_below_top_trans).
    { apply below_top_alter. intros e0 [H0 _]. simpl. split; [done|lia]. }
    intros _ s6 _ _. apply below_top_shift_following; [lia|done]. }
  intros _ s6 _ _.
  apply (holds_when _ stays_below_top_refl). intros _.
  apply below_top_truncate.
Qed.

Lemma below_top_line_in (key : nat) (rendered : exn + string)
    (s : LinesSession) :
  holds stays_below_top (line_in key rendered) s.
Proof.
  apply holds_below_top_assume. intros (Hcl & Hlc & Hidx).
  unfold line_in.
  apply (holds_bind _ stays_below_top_trans);
    [apply (holds_of_result _ stays_below_top_refl)|].
  intros t s1 _ _.
  apply (holds_bind _ stays_below_top_trans).
  { unfold holds, output_of, world_after. rewrite compute_run.
    apply stays_below_top_refl. }
  intros nb s2 o2 Hc. rewrite compute_run in Hc.
  injection Hc as Hnb Hs2 _. subst s2.
  apply nb_physical_lines_of_ge_1 in Hnb as [Hnb _].
  apply holds_below_top_assume. intros (_ & Hlc1 & _).
  apply holds_gets.
  apply (holds_bind _ stays_below_top_trans).
  { intros (Hcl2 & Hlc2 & Hidx2).
    unfold output_of, world_after, modify. simpl.
    split; [|constructor]. repeat split; simpl; [done|done|].
    apply Forall_app. split; [done|]. repeat constructor; simpl; lia. }
  intros _ s3 _ _.
  apply (holds_bind _ stays_below_top_trans); [apply below_top_extend|].
  intros _ s4 _ _. apply below_top_print_at_line. simpl. lia.
Qed.

Lemma below_top_end (s : LinesSession) : holds stays_below_top end_ s.
Proof.
  apply holds_below_top_assume. intros (_ & Hlc & _).
  unfold end_. apply holds_gets, below_top_set_cursor. lia.
Qed.

Section Top.

Context {value : Type}.
Variable str_format : string → gmap string value → exn + string.

Lemma step_below_top (w w' : world value) :
  step str_format w w' → rows_nonneg (session w) → rows_nonneg (session w').
Proof.
  intros Hstep Hinv. destruct Hstep as [tpl kw w|key tpl kw w|w].
  - refine (proj1 (holds_line str_format stays_below_top tpl kw w
                     stays_below_top_refl stays_below_top_trans _ Hinv)).
    intros. apply below_top_line_in.
  - refine (proj1 (holds_Line_update str_format stays_below_top key tpl kw w
                     stays_below_top_refl _ Hinv)).
    intros. apply below_top_print_line_in.
  - exact (proj1 (holds_in_session stays_below_top end_ w
                    (below_top_end (session w)) Hinv)).
Qed.

Lemma reachable_below_top (width : Z) (w : world value) :
  reachable str_format width w → rows_nonneg (session w).
Proof.
  unfold reachable. revert w.
  apply (rtc_ind_r (λ w, rows_nonneg (session w))).
  - repeat split; simpl; [lia|lia|constructor].
  - intros w0 w1 _ Hstep IH. by apply (step_below_top w0 w1).
Qed.

(** X25. In a world a program reaches from a new session of any width,
    whatever calls it made, returning or raising: the cursor, the last
    row and the rows of the entries are at row 0 or below; and a further
    call of [line], [update] or [end], returning or raising, makes each
    of its prints with the cursor at row 0 or below and never moves the
    cursor up by more rows than there are above it. *)
Theorem calls_never_go_above_first_row (width : Z) (w : world value)
    (tpl : string) (key : nat) (otpl : option string)
    (kw : gmap string value) :
  reachable str_format width w →
  (0 <= current_line (session w) ∧ 1 <= lines_counter (session w) ∧
   Forall (λ e, 0 <= line_number e) (lines_index (session w))) ∧
  Forall event_in_canvas (output_of (line str_format tpl kw) w) ∧
  Forall event_in_canvas (output_of (Line_update str_format key otpl kw) w) ∧
  Forall event_in_canvas (output_of (in_session end_) w).
Proof.
  intros Hreach.
  pose proof (reachable_below_top width w Hreach) as Hinv.
  split.
  { destruct Hinv as (Hcl & Hlc & Hidx). split; [done|]. split; [done|].
    eapply Forall_impl; [exact Hidx|]. by intros e [? _]. }
  split; [|split].
  - refine (proj2 (holds_line str_format stays_below_top tpl kw w
                     stays_below_top_refl stays_below_top_trans _ Hinv)).
    intros. apply below_top_line_in.
  - refine (proj2 (holds_Line_update str_format stays_below_top key otpl kw w
                     stays_below_top_refl _ Hinv)).
    intros. apply below_top_print_line_in.
  - exact (proj2 (holds_in_session stays_below_top end_ w
                    (below_top_end (session w)) Hinv)).
Qed.

End Top.

Lemma calls_never_go_above_first_row_witness :
  let w := world_after (Line_update named_format 0
                          (Some (repeat_char "x" 200)) ∅)
             (world_after (line named_format "b" ∅)
                (world_after (line named_format "a" ∅) (new_world 80))) in
  (0 <= current_line (session w) ∧ 1 <= lines_counter (session w) ∧
   Forall (λ e, 0 <= line_number e) (lines_index (session w))) ∧
  Forall event_in_canvas (output_of (line named_format "c" ∅) w) ∧
  Forall event_in_canvas
    (output_of (Line_update named_format 0 (Some "a") ∅) w) ∧
  Forall event_in_canvas (output_of (in_session end_) w).
Proof.
  intros w.
  refine (calls_never_go_above_first_row named_format 80 w "c" 0 (Some "a")
            ∅ _).
  unfold reachable.
  eapply rtc_l; [apply (step_line named_format "a" ∅)|].
  eapply rtc_l; [apply (step_line named_format "b" ∅)|].
  eapply rtc_l;
    [apply (step_update named_format 0 (Some (repeat_char "x" 200)) ∅)|].
  apply rtc_refl.
Defined.
